(** * Form 101 export / import: a shallow embedding of
      src/export_f101_to_csv.py and src/import_f101_from_csv.py

    The development has three layers:
    - [Pandas]: the Python values held in a DataFrame, [pd.read_csv],
      [DataFrame.to_csv], [DataFrame.to_numpy] and the fragment of
      psycopg2's adaptation the import uses;
    - [Store]: the PostgreSQL state the scripts touch (tables, the
      [logs.etl_logs] ledger) and the statements they send;
    - [Pipeline]: the connection with its transaction, the file system,
      and the two scripts written in a small state-and-error monad.
    [Props] and [Samples] define the observations and concrete stores;
    [Facts], [Loading] and [Roundtrip] prove the steps and whole runs;
    [Runs] evaluates concrete runs and [General] states the properties
    over all runs. *)

From Stdlib Require Import String Ascii List ZArith Bool Lia Permutation.
Import ListNotations.
Open Scope Z_scope.

(* ================================================================= *)
(** ** Python values, DataFrames and the pandas functions used *)
(* ================================================================= *)
Module Pandas.

(** Scalars that occur in the DataFrames of the two scripts.
    [PNone] is Python's [None], [PNaN] a float [nan], [PStr] a [str],
    [PInt] a Python [int], [PNpInt] a [numpy.int64] scalar and [PFloat z]
    a float64 whose value is the integer [z] (the only floats this model
    produces come from integer fields widened to float64). *)
Inductive pyval :=
| PNone
| PNaN
| PStr (s : string)
| PInt (z : Z)
| PNpInt (z : Z)
| PFloat (z : Z).

(** [pd.isna] *)
Definition isna (v : pyval) : bool :=
  match v with PNone | PNaN => true | _ => false end.

(** Column dtypes of a DataFrame. *)
Inductive dtype := DInt64 | DFloat64 | DObject.

Definition dtype_eqb (a b : dtype) : bool :=
  match a, b with
  | DInt64, DInt64 | DFloat64, DFloat64 | DObject, DObject => true
  | _, _ => false
  end.

(** A DataFrame: column labels, one dtype per column, rows of values. *)
Record frame := mkFrame {
  columns : list string;
  dtypes : list dtype;
  values : list (list pyval)
}.

(** A CSV file as the csv module writes it: a list of records, each a
    list of fields.  The quoting layer (QUOTE_MINIMAL: a field is quoted
    only when it holds the delimiter, a quote or a line break, and a
    record made of one empty field is written [""]) is not spelled out;
    so a record with no field, or with one field of spaces and tabs, is
    a line without any quote, which pandas skips as blank. *)
Definition csv := list (list string).

(** *** Decimal text of integers: Python's [str(int)] *)
Definition digit_char (d : Z) : ascii := ascii_of_nat (48 + Z.to_nat d).

Fixpoint digits_fuel (fuel : nat) (n : Z) (acc : string) : string :=
  match fuel with
  | O => acc
  | S f =>
      let acc' := String (digit_char (Z.rem n 10)) acc in
      if Z.eqb (Z.quot n 10) 0 then acc' else digits_fuel f (Z.quot n 10) acc'
  end.

Definition str_nonneg (n : Z) : string :=
  digits_fuel (S (Z.to_nat (Z.log2 n))) n EmptyString.

Definition str_Z (z : Z) : string :=
  if z <? 0 then String "-" (str_nonneg (- z)) else str_nonneg z.

(** [repr] of a float64 holding the integer [z], for |z| < 10^16
    (Python prints such floats as the integer followed by [.0]). *)
Definition float_repr (z : Z) : string := (str_Z z ++ ".0")%string.

(** Rounding an integer to the nearest float64 (53-bit significand, ties
    to even), as numpy does when it casts int64 to float64. *)
Definition round53 (z : Z) : Z :=
  let a := Z.abs z in
  if a <? 2 ^ 53 then z
  else
    let sh := Z.log2 a - 52 in
    let q := Z.shiftr a sh in
    let r := a - Z.shiftl q sh in
    let half := 2 ^ (sh - 1) in
    let q' := if half <? r then q + 1
              else if r =? half then (if Z.odd q then q + 1 else q)
              else q in
    Z.sgn z * Z.shiftl q' sh.

(** *** [pd.read_csv] with its default options *)

(** pandas' default [na_values] (STR_NA_VALUES). *)
Definition na_values : list string :=
  ["-1.#IND"; "1.#QNAN"; "1.#IND"; "-1.#QNAN"; "#N/A N/A"; "#N/A"; "N/A";
   "n/a"; "NA"; "<NA>"; "#NA"; "NULL"; "null"; "NaN"; "-NaN"; "nan"; "-nan";
   "None"; ""]%string.

Definition is_na_field (s : string) : bool :=
  existsb (String.eqb s) na_values.

Definition is_digit (c : ascii) : bool :=
  let n := nat_of_ascii c in Nat.leb 48 n && Nat.leb n 57.

Fixpoint parse_digits (s : string) (acc : Z) : option Z :=
  match s with
  | EmptyString => Some acc
  | String c r =>
      if is_digit c then parse_digits r (acc * 10 + Z.of_nat (nat_of_ascii c - 48))
      else None
  end.

Definition parse_unsigned (s : string) : option Z :=
  match s with EmptyString => None | _ => parse_digits s 0 end.

(** An integer literal in int64 range, as the C parser accepts it
    (an optional sign followed by decimal digits). *)
Definition parse_int (s : string) : option Z :=
  let z := match s with
           | String "-" r => option_map Z.opp (parse_unsigned r)
           | String "+" r => parse_unsigned r
           | _ => parse_unsigned s
           end in
  match z with
  | Some v => if (- 2 ^ 63 <=? v) && (v <? 2 ^ 63) then Some v else None
  | None => None
  end.

(** How the parser sees one field.  The fields this model types are the
    NA markers, integer literals, and everything else as text; float,
    boolean and out-of-range integer literals (and numbers padded with
    spaces), which pandas would also convert, are outside the modelled
    fragment and count as text here. *)
Inductive field_kind := KNa | KInt (z : Z) | KText.

Definition classify (s : string) : field_kind :=
  if is_na_field s then KNa
  else match parse_int s with Some z => KInt z | None => KText end.

Definition is_KNa (k : field_kind) : bool := match k with KNa => true | _ => false end.
Definition is_KInt (k : field_kind) : bool := match k with KInt _ => true | _ => false end.

(** Type inference of one column from its fields. *)
Definition infer_dtype (col : list string) : dtype :=
  match col with
  | [] => DObject
  | _ =>
      let ks := map classify col in
      if forallb is_KNa ks then DFloat64
      else if forallb (fun k => is_KNa k || is_KInt k) ks then
        (if existsb is_KNa ks then DFloat64 else DInt64)
      else DObject
  end.

(** The value a field gets in a column of the inferred dtype: an object
    column keeps the field text, NA markers become [nan]. *)
Definition convert_field (d : dtype) (s : string) : pyval :=
  match classify s, d with
  | KNa, _ => PNaN
  | KInt z, DInt64 => PNpInt z
  | KInt z, DFloat64 => PFloat (round53 z)
  | _, _ => PStr s
  end.

(** Short records are filled with NA; long records are a ParserError. *)
Definition pad_record (n : nat) (r : list string) : option (list string) :=
  if Nat.leb (length r) n then Some (r ++ repeat EmptyString (n - length r))
  else None.

Fixpoint pad_records (n : nat) (rs : list (list string)) : option (list (list string)) :=
  match rs with
  | [] => Some []
  | r :: rs' =>
      match pad_record n r, pad_records n rs' with
      | Some r', Some rs'' => Some (r' :: rs'')
      | _, _ => None
      end
  end.

Definition column_fields (rs : list (list string)) (j : nat) : list string :=
  map (fun r => nth j r EmptyString) rs.

(** [skip_blank_lines=True]: the C tokenizer drops empty lines and
    lines of spaces and tabs only. *)
Definition is_blank_char (c : ascii) : bool :=
  Ascii.eqb c " "%char || Ascii.eqb c (ascii_of_nat 9).

Definition blank_record (r : list string) : bool :=
  match r with
  | [] => true
  | [s] => negb (String.eqb s EmptyString) && forallb is_blank_char (list_ascii_of_string s)
  | _ => false
  end.

(** An empty header field [i] is named [Unnamed: i]. *)
Fixpoint name_columns (i : nat) (h : list string) : list string :=
  match h with
  | [] => []
  | s :: h' =>
      (if String.eqb s EmptyString then ("Unnamed: " ++ str_Z (Z.of_nat i))%string else s)
        :: name_columns (S i) h'
  end.

(** [pd.read_csv(path)] on the records of a file: [None] is the
    EmptyDataError (no line left once blank lines are skipped) or the
    ParserError (a record longer than the first data record) of pandas.
    The first non-blank record is the header.  When the first data
    record has [k] fields more than the header, its first [k] fields and
    those of every record become the index (pandas' implicit index),
    which [to_numpy] does not return.  (Duplicate header labels, which
    pandas renames to [a.1], ..., are not modelled.) *)
Definition read_csv (f : csv) : option frame :=
  match filter (fun r => negb (blank_record r)) f with
  | [] => None
  | header :: rs =>
      let n := length header in
      let lead := match rs with [] => O | r :: _ => (length r - n)%nat end in
      match pad_records (lead + n) rs with
      | None => None
      | Some rs0 =>
          let rs' := map (skipn lead) rs0 in
          let ds := map (fun j => infer_dtype (column_fields rs' j)) (seq 0 n) in
          Some (mkFrame (name_columns 0 header) ds
                  (map (fun r => map (fun '(d, s) => convert_field d s) (combine ds r)) rs'))
      end
  end.

(** *** [df.to_csv(path, index=False)] *)
Definition render (v : pyval) : string :=
  match v with
  | PNone | PNaN => EmptyString
  | PStr s => s
  | PInt z | PNpInt z => str_Z z
  | PFloat z => float_repr z
  end.

Definition to_csv (df : frame) : csv :=
  columns df :: map (map render) (values df).

(** *** [df.to_numpy()]: one array of the columns' common dtype.
    The dtypes here are those [infer_dtype] produces; boolean columns,
    whose common type with int64 is object, are outside the fragment. *)
Definition common_dtype (ds : list dtype) : dtype :=
  if existsb (dtype_eqb DObject) ds then DObject
  else if (negb (Nat.eqb (length ds) 0)) && forallb (dtype_eqb DInt64) ds then DInt64
  else DFloat64.

(** How a value of the frame comes out of the array: in an object array
    an int64 becomes a Python [int]; in a float64 array it is widened. *)
Definition as_array_value (d : dtype) (v : pyval) : pyval :=
  match d, v with
  | DObject, PNpInt z => PInt z
  | DFloat64, PNpInt z => PFloat (round53 z)
  | _, _ => v
  end.

Definition to_numpy (df : frame) : list (list pyval) :=
  let d := common_dtype (dtypes df) in
  map (map (as_array_value d)) (values df).

(** Line 130 of the import script:
    [[tuple(None if pd.isna(x) else x for x in row) for row in df.to_numpy()]] *)
Definition normalize (x : pyval) : pyval := if isna x then PNone else x.

Definition data_tuples_of (df : frame) : list (list pyval) :=
  map (map normalize) (to_numpy df).

End Pandas.

(* ================================================================= *)
(** ** The PostgreSQL store *)
(* ================================================================= *)
Module Store.
Import Pandas.

(** A column of the form 101 tables.  Values are held in their text
    form; NOT NULL and the default are the parts of the column the
    scripts' statements depend on. *)
Record column := mkColumn {
  c_name : string;
  c_notnull : bool;
  c_default : option string
}.

(** Table constraints. *)
Inductive constr :=
| CCheck (name expr : string)
| CPrimaryKey (cols : list string)
| CUnique (cols : list string)
| CForeignKey (cols : list string) (reftable : string).

Definition is_check (c : constr) : bool :=
  match c with CCheck _ _ => true | _ => false end.

(** A cell: [None] is SQL NULL. *)
Definition cell := option string.

Record table := mkTable {
  t_cols : list column;
  t_constrs : list constr;
  t_rows : list (list cell)
}.

(** A row of [logs.etl_logs]; [l_ended] says whether [end_time] is set. *)
Record logrec := mkLog {
  log_id : nat;
  l_table_name : string;
  l_status : string;
  l_records : nat;
  l_error : option string;
  l_ended : bool
}.

Record db := mkDb {
  tables : list (string * table);
  ledger : list logrec;
  next_log_id : nat
}.

Fixpoint lookup {A} (k : string) (l : list (string * A)) : option A :=
  match l with
  | [] => None
  | (k', v) :: l' => if String.eqb k k' then Some v else lookup k l'
  end.

Fixpoint assoc_set {A} (k : string) (v : A) (l : list (string * A)) : list (string * A) :=
  match l with
  | [] => [(k, v)]
  | (k', v') :: l' => if String.eqb k k' then (k, v) :: l' else (k', v') :: assoc_set k v l'
  end.

Definition set_table (n : string) (t : table) (d : db) : db :=
  mkDb (assoc_set n t (tables d)) (ledger d) (next_log_id d).

(** Literals as psycopg2's [mogrify] writes them into the statement. *)
Inductive literal := LNull | LStr (s : string) | LInt (z : Z) | LFloat (z : Z) | LNaN.

(** psycopg2's adaptation of one argument; numpy.int64 has no adapter
    ("can't adapt type 'numpy.int64'"). *)
Definition adapt (v : pyval) : option literal :=
  match v with
  | PNone => Some LNull
  | PNaN => Some LNaN
  | PStr s => Some (LStr s)
  | PInt z => Some (LInt z)
  | PFloat z => Some (LFloat z)
  | PNpInt _ => None
  end.

(** The value a literal takes in a text column. *)
Definition literal_cell (l : literal) : cell :=
  match l with
  | LNull => None
  | LStr s => Some s
  | LInt z => Some (str_Z z)
  | LFloat z => Some (float_repr z)
  | LNaN => Some "NaN"%string
  end.

(** The statements the two scripts send. [SInsertRows t cols rows] is one
    round trip of [execute_batch]: the template
    [INSERT INTO t ("c1", ...) VALUES (%s, ...)] formatted by [mogrify]
    with each row of one page, the INSERTs joined with [;]; [cols] are the
    names as the template spells them, [rows] the adapted arguments. *)
Inductive stmt :=
| SCreateLike (target reference : string)
| SInsertLog (table_name : string)
| SUpdateLog (id : nat) (status : string) (records : nat) (msg : option string)
| SSelectAll (t : string)
| STruncate (t : string)
| SInsertRows (t : string) (cols : list string) (rows : list (list literal)).

Inductive sresult := RNone | RId (id : nat) | RRows (cols : list string) (rows : list (list cell)).

(** [CREATE TABLE t (LIKE r INCLUDING DEFAULTS INCLUDING CONSTRAINTS)]:
    column names and NOT NULL are always copied, defaults and CHECK
    constraints by the two INCLUDING options; primary key, unique and
    foreign key constraints are not (they need INCLUDING INDEXES, and
    foreign keys are never copied). *)
Definition like_copy (r : table) : table :=
  mkTable (t_cols r) (filter is_check (t_constrs r)) [].

Definition create_like (target reference : string) (d : db) : string + db :=
  match lookup target (tables d) with
  | Some _ => inr d  (* IF NOT EXISTS: a notice, no change *)
  | None =>
      match lookup reference (tables d) with
      | None => inl ("relation " ++ reference ++ " does not exist")%string
      | Some r => inr (set_table target (like_copy r) d)
      end
  end.

(** Whether a name holds a double quote (character 34), which would end
    the quoted identifier [f'"{col}"'] early. *)
Definition has_dquote (s : string) : bool :=
  existsb (fun c => Ascii.eqb c (ascii_of_nat 34)) (list_ascii_of_string s).

(** [mogrify] formats the whole template with Python's %-rules, names
    included: in a name, ["%%"] becomes ['%'], and any other ['%'] is read
    as one more placeholder ([None]), which the row has no argument for. *)
Fixpoint pct_format (l : list ascii) : option (list ascii) :=
  match l with
  | [] => Some []
  | c :: l' =>
      if Ascii.eqb c "%"%char then
        match l' with
        | c' :: l'' => if Ascii.eqb c' "%"%char then option_map (cons c) (pct_format l'') else None
        | [] => None
        end
      else option_map (cons c) (pct_format l')
  end.

Definition name_formats (s : string) : bool :=
  match pct_format (list_ascii_of_string s) with Some _ => true | None => false end.

(** The name the server reads once the template is formatted. *)
Definition name_sent (s : string) : string :=
  match pct_format (list_ascii_of_string s) with Some l => string_of_list_ascii l | None => s end.

Definition has_pct (s : string) : bool :=
  existsb (fun c => Ascii.eqb c "%"%char) (list_ascii_of_string s).

Fixpoint index_of (x : string) (l : list string) : option nat :=
  match l with
  | [] => None
  | y :: l' => if String.eqb x y then Some 0%nat else option_map S (index_of x l')
  end.

Fixpoint nodupb (l : list string) : bool :=
  match l with
  | [] => true
  | x :: l' => negb (existsb (String.eqb x) l') && nodupb l'
  end.

(** The row a table receives from [INSERT INTO t (cols) VALUES (row)]:
    the listed columns take the literals, the others their default. *)
Definition full_row (tcols : list column) (cols : list string) (row : list literal) : list cell :=
  map (fun c => match index_of (c_name c) cols with
                | Some i => literal_cell (nth i row LNull)
                | None => c_default c
                end) tcols.

Definition notnull_ok (tcols : list column) (r : list cell) : bool :=
  forallb (fun '(c, v) => negb (c_notnull c) || match v with Some _ => true | None => false end)
          (combine tcols r).

(** An empty column list ([INSERT INTO t () VALUES ()]) and a double
    quote in a name are syntax errors, found before the table is looked
    up. *)
Definition insert_rows (tn : string) (cols0 : list string) (rows : list (list literal)) (d : db)
  : string + db :=
  let cols := map name_sent cols0 in
  if match cols with [] => true | _ => false end || existsb has_dquote cols then inl "syntax error"%string
  else
  match lookup tn (tables d) with
  | None => inl ("relation " ++ tn ++ " does not exist")%string
  | Some t =>
      if negb (forallb (fun c => existsb (fun tc => String.eqb (c_name tc) c) (t_cols t)) cols)
      then inl "column does not exist"%string
      else if negb (nodupb cols) then inl "column specified more than once"%string
      else if negb (forallb (fun r => Nat.eqb (length r) (length cols)) rows)
      then inl "INSERT has more target columns than expressions"%string
      else
        let new := map (full_row (t_cols t) cols) rows in
        if negb (forallb (notnull_ok (t_cols t)) new)
        then inl "null value violates not-null constraint"%string
        else inr (set_table tn (mkTable (t_cols t) (t_constrs t) (t_rows t ++ new)) d)
  end.

Definition update_log (id : nat) (status : string) (n : nat) (msg : option string) (r : logrec) : logrec :=
  if Nat.eqb (log_id r) id then mkLog (log_id r) (l_table_name r) status n msg true else r.

(** What the server does with one statement: an error message or the
    statement's result and the new database state. *)
Definition apply_stmt (s : stmt) (d : db) : string + (sresult * db) :=
  match s with
  | SCreateLike tgt ref =>
      match create_like tgt ref d with inl m => inl m | inr d' => inr (RNone, d') end
  | SInsertLog tn =>
      let id := next_log_id d in
      inr (RId id, mkDb (tables d) (ledger d ++ [mkLog id tn "started" 0 None false]) (S id))
  | SUpdateLog id st n msg =>
      inr (RNone, mkDb (tables d) (map (update_log id st n msg) (ledger d)) (next_log_id d))
  | SSelectAll tn =>
      match lookup tn (tables d) with
      | None => inl ("relation " ++ tn ++ " does not exist")%string
      | Some t => inr (RRows (map c_name (t_cols t)) (t_rows t), d)
      end
  | STruncate tn =>
      match lookup tn (tables d) with
      | None => inl ("relation " ++ tn ++ " does not exist")%string
      | Some t => inr (RNone, set_table tn (mkTable (t_cols t) (t_constrs t) []) d)
      end
  | SInsertRows tn cols rows =>
      match insert_rows tn cols rows d with inl m => inl m | inr d' => inr (RNone, d') end
  end.

End Store.

(* ================================================================= *)
(** ** The connection, the file system and the two scripts *)
(* ================================================================= *)
Module Pipeline.
Import Pandas Store.

(** Python exceptions the scripts raise or let through. *)
Inductive err :=
| EConnect (msg : string)              (* psycopg2.connect failed *)
| EDb (msg : string)                   (* the server rejected a statement *)
| EInFailedTxn                         (* current transaction is aborted *)
| ECantAdapt                           (* can't adapt type 'numpy.int64' *)
| EFormat                              (* mogrify: a '%' of a name left a placeholder without argument *)
| EReadSql (inner : err)               (* pandas' DatabaseError "Execution failed on sql" *)
| EFileNotFound (path : string)
| EParse                               (* pandas EmptyDataError / ParserError *)
| EWrite (msg : string).               (* to_csv could not write the file *)

(** [str(e)], the text stored in [error_message]. *)
Fixpoint err_str (e : err) : string :=
  match e with
  | EConnect m | EDb m | EWrite m => m
  | EInFailedTxn => "current transaction is aborted, commands ignored until end of transaction block"
  | ECantAdapt => "can't adapt type 'numpy.int64'"
  | EFormat => "tuple index out of range"
  | EReadSql i => "Execution failed on sql: " ++ err_str i
  | EFileNotFound p => "File " ++ p ++ " not found"
  | EParse => "Error tokenizing data"
  end%string.

(** What the scripts do observably, in order. *)
Inductive event :=
| EvConnect
| EvExec (s : stmt)
| EvCommit
| EvRollback
| EvFileCheck (path : string) (found : bool)
| EvWriteFile (path : string)
| EvClose.

(** The environment: whether the connection can be opened, which
    statements the server rejects for reasons outside the model (rights,
    locks, CHECK constraints, lost connection), whether the CSV can be
    written. *)
Record env := mkEnv {
  env_connect : option string;
  env_fault : stmt -> option string;
  env_write : option string
}.

(** The world: the file system (path to records), the committed database,
    the state the open transaction sees, whether that transaction is
    aborted, and the trace. *)
Record world := mkWorld {
  w_env : env;
  w_fs : list (string * csv);
  w_committed : db;
  w_pending : db;
  w_aborted : bool;
  w_trace : list event
}.

Definition emit (ev : event) (w : world) : world :=
  mkWorld (w_env w) (w_fs w) (w_committed w) (w_pending w) (w_aborted w) (w_trace w ++ [ev]).

Definition with_txn (c p : db) (ab : bool) (w : world) : world :=
  mkWorld (w_env w) (w_fs w) c p ab (w_trace w).

Definition with_fs (fs : list (string * csv)) (w : world) : world :=
  mkWorld (w_env w) fs (w_committed w) (w_pending w) (w_aborted w) (w_trace w).

(** *** A state-and-exception monad *)
Inductive result (A : Type) := Ok (a : A) | Err (e : err).
Arguments Ok {A} a.
Arguments Err {A} e.

Definition M (A : Type) := world -> result A * world.

Definition ret {A} (a : A) : M A := fun w => (Ok a, w).
Definition raise {A} (e : err) : M A := fun w => (Err e, w).
Definition bind {A B} (m : M A) (k : A -> M B) : M B :=
  fun w => match m w with
           | (Ok a, w') => k a w'
           | (Err e, w') => (Err e, w')
           end.
(** [try: ... except Exception as e: ...]: the outcome as a value. *)
Definition try_ {A} (m : M A) : M (result A) :=
  fun w => let (r, w') := m w in (Ok r, w').
(** [try: ... finally: ...] with a finaliser that does not raise. *)
Definition finally {A} (m : M A) (fin : M unit) : M A :=
  fun w => let (r, w') := m w in let (_, w'') := fin w' in (r, w'').

Notation "x <- m ;; k" := (bind m (fun x => k))
  (at level 61, m at next level, right associativity).
Notation "m ;;; k" := (bind m (fun _ => k))
  (at level 61, right associativity).

(** *** The connection (autocommit off) *)

(** [create_connection()]: a new session sees the committed state. *)
Definition create_connection : M unit := fun w =>
  match env_connect (w_env w) with
  | Some m => (Err (EConnect m), w)
  | None => (Ok tt, emit EvConnect (with_txn (w_committed w) (w_committed w) false w))
  end.

(** [cursor.execute(s)]: in an aborted transaction every statement fails;
    a failing statement aborts the transaction. *)
Definition exec (s : stmt) : M sresult := fun w =>
  let w1 := emit (EvExec s) w in
  if w_aborted w then (Err EInFailedTxn, w1)
  else match env_fault (w_env w) s with
       | Some m => (Err (EDb m), with_txn (w_committed w1) (w_pending w1) true w1)
       | None =>
           match apply_stmt s (w_pending w) with
           | inl m => (Err (EDb m), with_txn (w_committed w1) (w_pending w1) true w1)
           | inr (r, d') => (Ok r, with_txn (w_committed w1) d' false w1)
           end
       end.

(** [conn.commit()]; on an aborted transaction the server rolls back. *)
Definition commit : M unit := fun w =>
  let w1 := emit EvCommit w in
  if w_aborted w then (Ok tt, with_txn (w_committed w) (w_committed w) false w1)
  else (Ok tt, with_txn (w_pending w) (w_pending w) false w1).

(** [conn.rollback()] *)
Definition rollback : M unit := fun w =>
  (Ok tt, with_txn (w_committed w) (w_committed w) false (emit EvRollback w)).

(** [conn.close()]: an open transaction is discarded. *)
Definition close : M unit := fun w =>
  (Ok tt, with_txn (w_committed w) (w_committed w) false (emit EvClose w)).

(** [cursor.fetchone()[0]] after [INSERT ... RETURNING log_id] *)
Definition fetch_id (r : sresult) : M nat :=
  match r with RId id => ret id | _ => raise (EDb "no results to fetch") end.

(** *** File system *)
Definition path_exists (p : string) : M bool := fun w =>
  let b := match lookup p (w_fs w) with Some _ => true | None => false end in
  (Ok b, emit (EvFileCheck p b) w).

Definition file_read_csv (p : string) : M frame := fun w =>
  match lookup p (w_fs w) with
  | None => (Err (EFileNotFound p), w)
  | Some f => match Pandas.read_csv f with
              | Some df => (Ok df, w)
              | None => (Err EParse, w)
              end
  end.

Definition file_to_csv (p : string) (df : frame) : M unit := fun w =>
  match env_write (w_env w) with
  | Some m => (Err (EWrite m), w)
  | None => (Ok tt, emit (EvWriteFile p) (with_fs (assoc_set p (to_csv df) (w_fs w)) w))
  end.

(** *** The scripts' helpers *)
Definition source_table : string := "dm.dm_f101_round_f".
Definition target_table : string := "dm.dm_f101_round_f_v2".
Definition export_file : string := "data/f101_round_data.csv".
Definition import_file : string := "data/f101_round_data_modified.csv".

(** [log_export_start] / [log_import_start]: insert, fetch the id, commit;
    on an error roll back and re-raise. *)
Definition log_start (tn : string) : M nat :=
  r <- try_ (res <- exec (SInsertLog tn) ;; id <- fetch_id res ;; commit ;;; ret id) ;;
  match r with
  | Ok id => ret id
  | Err e => rollback ;;; raise e
  end.

Definition log_export_start : M nat := log_start source_table.
Definition log_import_start : M nat := log_start target_table.

(** [log_export_end] / [log_import_end] *)
Definition log_end (id : nat) (status : string) (n : nat) (msg : option string) : M unit :=
  r <- try_ (exec (SUpdateLog id status n msg) ;;; commit) ;;
  match r with
  | Ok _ => ret tt
  | Err e => rollback ;;; raise e
  end.

Definition log_export_end := log_end.
Definition log_import_end := log_end.

(** [create_table_copy] *)
Definition create_table_copy : M unit :=
  r <- try_ (exec (SCreateLike target_table source_table) ;;; commit) ;;
  match r with
  | Ok _ => ret tt
  | Err e => rollback ;;; raise e
  end.

(** [pd.read_sql(query, conn)] on a DBAPI connection: pandas runs the
    query on a cursor and, when it fails, rolls back and raises its own
    DatabaseError.  The rows become an object-dtype frame; a result
    without columns gives pandas' empty frame, whatever the row count. *)
Definition frame_of_rows (cols : list string) (rows : list (list cell)) : frame :=
  match cols with
  | [] => mkFrame [] [] []
  | _ => mkFrame cols (map (fun _ => DObject) cols)
           (map (map (fun c => match c with Some s => PStr s | None => PNone end)) rows)
  end.

Definition read_sql (tn : string) : M frame :=
  r <- try_ (exec (SSelectAll tn)) ;;
  match r with
  | Ok (RRows cols rows) => ret (frame_of_rows cols rows)
  | Ok _ => raise (EDb "no result set")
  | Err e => rollback ;;; raise (EReadSql e)
  end.

(** [psycopg2.extras.execute_batch(cursor, sql, argslist, page_size)]:
    one round trip per page; the page's arguments are adapted (mogrify)
    before anything is sent. *)
Fixpoint paginate_fuel {A} (fuel : nat) (n : nat) (l : list A) : list (list A) :=
  match fuel with
  | O => []
  | S f => match l with
           | [] => []
           | _ => firstn n l :: paginate_fuel f n (skipn n l)
           end
  end.

Definition paginate {A} (n : nat) (l : list A) : list (list A) := paginate_fuel (length l) n l.

Fixpoint mogrify_row (vs : list pyval) : option (list literal) :=
  match vs with
  | [] => Some []
  | v :: vs' => match adapt v, mogrify_row vs' with
                | Some l, Some ls => Some (l :: ls)
                | _, _ => None
                end
  end.

Fixpoint mogrify_rows (rows : list (list pyval)) : option (list (list literal)) :=
  match rows with
  | [] => Some []
  | r :: rs =>
      match mogrify_row r, mogrify_rows rs with
      | Some l, Some ls => Some (l :: ls)
      | _, _ => None
      end
  end.

(** [cur.mogrify(sql, args)] for the rows of a page, in order: the row's
    arguments are adapted, then the template is formatted, which fails
    when a name does not format ([fmt_ok] false). *)
Fixpoint mogrify_page (fmt_ok : bool) (rows : list (list pyval)) : err + list (list literal) :=
  match rows with
  | [] => inr []
  | r :: rs =>
      match mogrify_row r with
      | None => inl ECantAdapt
      | Some l =>
          if fmt_ok then
            match mogrify_page fmt_ok rs with inl e => inl e | inr ls => inr (l :: ls) end
          else inl EFormat
      end
  end.

Fixpoint run_pages (tn : string) (cols : list string) (pages : list (list (list pyval))) : M unit :=
  match pages with
  | [] => ret tt
  | p :: ps =>
      match mogrify_page (forallb name_formats cols) p with
      | inl e => raise e
      | inr lits => exec (SInsertRows tn cols lits) ;;; run_pages tn cols ps
      end
  end.

Definition execute_batch (tn : string) (cols : list string) (rows : list (list pyval)) (page_size : nat)
  : M unit :=
  run_pages tn cols (paginate page_size rows).

(** The [except] block shared by the two scripts:
    [if conn and 'log_id' in locals(): log_*_end(conn, log_id, 'failed', 0, error_msg)]
    followed by [raise].  [log_id] is [None] when it was never bound. *)
Definition on_failure (log_id : option nat) (e : err) : M unit :=
  match log_id with
  | Some id => log_end id "failed" 0 (Some (err_str e)) ;;; raise e
  | None => raise e
  end.

(** *** [export_f101_to_csv()]

    The logger calls of the two scripts ([logger.info], [logger.error])
    write through a FileHandler to [logs/f101_export.log] or
    [logs/f101_import.log] and never raise; they are not modelled, and
    [w_fs] holds the data files only. *)
Definition export_body (id : nat) : M unit :=
  df <- read_sql source_table ;;
  file_to_csv export_file df ;;;
  let records_exported := length (values df) in
  log_export_end id "completed" records_exported None.

Definition export_f101_to_csv : M unit :=
  c <- try_ create_connection ;;
  match c with
  | Err e => raise e
  | Ok _ =>
      finally
        (r <- try_ log_export_start ;;
         match r with
         | Err e => on_failure None e
         | Ok id =>
             b <- try_ (export_body id) ;;
             match b with Ok _ => ret tt | Err e => on_failure (Some id) e end
         end)
        close
  end.

(** *** [import_f101_from_csv()] *)
Definition import_body (id : nat) : M unit :=
  found <- path_exists import_file ;;
  if negb found then raise (EFileNotFound import_file) else
  df <- file_read_csv import_file ;;
  exec (STruncate target_table) ;;; commit ;;;
  let data_tuples := data_tuples_of df in
  let cols := columns df in
  execute_batch target_table cols data_tuples 1000 ;;;
  let records_imported := length data_tuples in
  log_import_end id "completed" records_imported None.

Definition import_f101_from_csv : M unit :=
  c <- try_ create_connection ;;
  match c with
  | Err e => raise e
  | Ok _ =>
      finally
        (p <- try_ create_table_copy ;;
         match p with
         | Err e => on_failure None e
         | Ok _ =>
             r <- try_ log_import_start ;;
             match r with
             | Err e => on_failure None e
             | Ok id =>
                 b <- try_ (import_body id) ;;
                 match b with Ok _ => ret tt | Err e => on_failure (Some id) e end
             end
         end)
        close
  end.

End Pipeline.

(* ================================================================= *)
(** ** Observations on runs *)
(* ================================================================= *)
Module Props.
Import Pandas Store Pipeline.

Definition rows_of (tn : string) (d : db) : option (list (list cell)) :=
  option_map t_rows (lookup tn (tables d)).

(** Putting the exported file where the import reads it. *)
Definition copy_file (src dst : string) (w : world) : world :=
  match lookup src (w_fs w) with
  | Some f => with_fs (assoc_set dst f (w_fs w)) w
  | None => w
  end.

(** Export, copy the CSV unchanged to the import path, import. *)
Definition roundtrip (w : world) : result unit * world :=
  let w1 := snd (export_f101_to_csv w) in
  import_f101_from_csv (copy_file export_file import_file w1).

(** A text value that pandas reads back as the same string: it starts
    with an ASCII letter that cannot begin a number ([inf], [nan]), a
    boolean ([True], [false]) or an NA marker ([NA], [null], [None]). *)
Definition is_letter (c : ascii) : bool :=
  let n := nat_of_ascii c in (Nat.leb 65 n && Nat.leb n 90) || (Nat.leb 97 n && Nat.leb n 122).

Definition safe_text (s : string) : bool :=
  match s with
  | String c _ =>
      is_letter c && negb (existsb (Ascii.eqb c) ["i"; "I"; "n"; "N"; "t"; "T"; "f"; "F"]%char)
  | EmptyString => false
  end.

(** A column name the round trip keeps: not empty (pandas names an
    empty header field [Unnamed: i]), without a double quote (it would
    end the quoted identifier [f'"{col}"']) and without '%' (mogrify would
    read it as part of a placeholder). *)
Definition name_ok (s : string) : bool :=
  negb (String.eqb s EmptyString) && negb (has_dquote s) && negb (has_pct s).

(** A source cell whose round trip the amended C1 describes: NULLs and
    NA-marker strings only in nullable columns, other text safe. *)
Definition cell_ok (c : column) (v : cell) : bool :=
  match v with
  | None => negb (c_notnull c)
  | Some s => safe_text s || (is_na_field s && negb (c_notnull c))
  end.

Definition row_ok (cols : list column) (r : list cell) : bool :=
  Nat.eqb (length r) (length cols) && forallb (fun '(c, v) => cell_ok c v) (combine cols r).

(** The store's NULL for every missing-value marker. *)
Definition resolve (v : cell) : cell :=
  match v with
  | Some s => if is_na_field s then None else Some s
  | None => None
  end.

Definition no_faults (e : env) : Prop :=
  env_connect e = None /\ (forall s, env_fault e s = None) /\ env_write e = None.

(** Every ledger id is below the next id the sequence hands out. *)
Definition ledger_wf (d : db) : bool :=
  forallb (fun r => Nat.ltb (log_id r) (next_log_id d)) (ledger d).

(** The ledger updates a trace sent. *)
Definition is_update (ev : event) : bool :=
  match ev with EvExec (SUpdateLog _ _ _ _) => true | _ => false end.

(** The ledger writes (INSERT or UPDATE of [logs.etl_logs]) a trace sent. *)
Definition is_ledger_write (ev : event) : bool :=
  match ev with EvExec (SInsertLog _) | EvExec (SUpdateLog _ _ _ _) => true | _ => false end.

(** The state after [INSERT ... RETURNING log_id] and after the UPDATE of
    the ledger row. *)
Definition started_db (d : db) (tn : string) : db :=
  mkDb (tables d) (ledger d ++ [mkLog (next_log_id d) tn "started" 0 None false]) (S (next_log_id d)).

Definition updated_db (d : db) (id : nat) (st : string) (n : nat) (msg : option string) : db :=
  mkDb (tables d) (map (update_log id st n msg) (ledger d)) (next_log_id d).

(** A cell as [pd.read_sql] holds it, as psycopg2 writes it into the
    INSERT, and as [to_csv] writes it into the file. *)
Definition py_of_cell (c : cell) : pyval := match c with None => PNone | Some s => PStr s end.
Definition lit_of_cell (c : cell) : literal := match c with None => LNull | Some s => LStr s end.
Definition field_of_cell (c : cell) : string := render (py_of_cell c).

(** The events before the file-existence check. *)
Fixpoint before_check (tr : list event) : list event :=
  match tr with
  | [] => []
  | EvFileCheck _ _ :: _ => []
  | ev :: tr' => ev :: before_check tr'
  end.

(** The two scripts, and the steps before the ledger's "started" record
    is committed: connecting, provisioning (import only), the INSERT. *)
Inductive script := ExportScript | ImportScript.

Definition run_script (k : script) : M unit :=
  match k with ExportScript => export_f101_to_csv | ImportScript => import_f101_from_csv end.

(** The table whose run a script records in the ledger. *)
Definition script_table (k : script) : string :=
  match k with ExportScript => source_table | ImportScript => target_table end.

Definition fails_before_begin (k : script) (w : world) (e : err) : Prop :=
  create_connection w = (Err e, w) \/
  exists w1, create_connection w = (Ok tt, w1) /\
    match k with
    | ExportScript => exists w2, log_export_start w1 = (Err e, w2)
    | ImportScript =>
        (exists w2, create_table_copy w1 = (Err e, w2)) \/
        (exists w2 w3, create_table_copy w1 = (Ok tt, w2) /\ log_import_start w2 = (Err e, w3))
    end.

End Props.

(* ================================================================= *)
(** ** Concrete stores and files *)
(* ================================================================= *)
Module Samples.
Import Pandas Store Pipeline Props.
Local Open Scope string_scope.

Definition env_ok : env := mkEnv None (fun _ => None) None.

(** A reference table with a primary key, one row whose first value has
    a leading zero. *)
Definition src_tbl : table :=
  mkTable [mkColumn "a" true None; mkColumn "b" false None]
          [CPrimaryKey ["a"]; CCheck "b_len" "length(b) < 10"]
          [[Some "007"; Some "x"]].

Definition db0 : db := mkDb [(source_table, src_tbl)] [] 0.

Definition fresh_world (e : env) (fs : list (string * csv)) : world :=
  mkWorld e fs db0 db0 false [].

Definition w_fresh : world := fresh_world env_ok [].

(** An import file with an empty value in the NOT NULL column [a]. *)
Definition csv_null_a : csv := [["a"; "b"]; [""; "x"]]%string.

(** An import file whose columns are all integers. *)
Definition csv_ints : csv := [["a"; "b"]; ["1"; "2"]]%string.

(** A small import file the store accepts. *)
Definition csv_small : csv := [["a"; "b"]; ["A1"; "x"]; ["B2"; ""]]%string.


(** A server that rejects the ledger's "completed" update. *)
Definition env_completed_update : env :=
  mkEnv None
        (fun s => match s with
                  | SUpdateLog _ st _ _ =>
                      if String.eqb st "completed" then Some "deadlock detected"%string else None
                  | _ => None
                  end)
        None.

(** A store without the form 101 table. *)
Definition db_empty : db := mkDb [] [] 0.

Definition frame_int_nan : frame :=
  match read_csv [["a"; "b"]; ["1"; ""]]%string with Some df => df | None => mkFrame [] [] [] end.

(** A reference table whose values are text that pandas reads back as
    text, a NULL and the NA marker "NA" in the nullable column. *)
Definition src_text : table :=
  mkTable [mkColumn "a" true None; mkColumn "b" false None]
          [CPrimaryKey ["a"]]
          [[Some "A1"; Some "x"]; [Some "B2"; None]; [Some "C3"; Some "NA"]].

Definition db_text : db := mkDb [(source_table, src_text)] [] 0.

Definition w_text : world := mkWorld env_ok [] db_text db_text false [].

(** A store without the form 101 table, reached through a working server. *)
Definition w_empty : world := mkWorld env_ok [] db_empty db_empty false [].

(** A server on which the export's SELECT times out and the ledger's
    "failed" update is rejected. *)
Definition env_read_fails : env :=
  mkEnv None
        (fun s => match s with
                  | SSelectAll _ => Some "canceling statement due to statement timeout"%string
                  | SUpdateLog _ st _ _ =>
                      if String.eqb st "failed" then Some "permission denied for table etl_logs"%string
                      else None
                  | _ => None
                  end)
        None.

(** A store whose ledger holds an earlier run's row. *)
Definition db_logged : db :=
  mkDb [(source_table, src_text)] [mkLog 0 source_table "completed" 3 None true] 1.

Definition w_logged : world := mkWorld env_ok [] db_logged db_logged false [].

(** A store where the copy of the table already exists and holds a row. *)
Definition tgt_tbl : table :=
  mkTable [mkColumn "a" true None; mkColumn "b" false None] [] [[Some "A1"; Some "x"]].

Definition db_loaded : db := mkDb [(source_table, src_tbl); (target_table, tgt_tbl)] [] 0.

(** An empty import file, and an import file with a header only. *)
Definition w_loaded_empty_file : world :=
  mkWorld env_ok [(import_file, [])] db_loaded db_loaded false [].

Definition w_loaded_header_only : world :=
  mkWorld env_ok [(import_file, [["a"; "b"]])] db_loaded db_loaded false [].

End Samples.


(* ================================================================= *)
(** ** Invariants of runs *)
(* ================================================================= *)
Module Invariants.
Import Pandas Store Pipeline.

(** A property [Pd] of the committed state and of the session's state,
    and a property [Pf] of the files. *)
Definition inv (Pd : db -> Prop) (Pf : list (string * csv) -> Prop) (w : world) : Prop :=
  Pd (w_committed w) /\ Pd (w_pending w) /\ Pf (w_fs w).

(** [hoare I m Q]: from a world satisfying [I], [m] ends in a world
    satisfying [I], and a value it returns normally satisfies [Q]. *)
Definition hoare {A} (I : world -> Prop) (m : M A) (Q : A -> Prop) : Prop :=
  forall w, I w -> I (snd (m w)) /\ (forall a, fst (m w) = Ok a -> Q a).

(** A statement the server accepts keeps [Pd]. *)
Definition stmt_keeps (Pd : db -> Prop) (s : stmt) : Prop :=
  forall d r d', Pd d -> apply_stmt s d = inr (r, d') -> Pd d'.

(** A result the statement can return from a state satisfying [Pd]. *)
Definition stmt_result (Pd : db -> Prop) (s : stmt) (r : sresult) : Prop :=
  exists d d', Pd d /\ apply_stmt s d = inr (r, d').

(** The ledger of [d] is [L0] followed by rows naming [tn] whose ids are
    at least [N0], and the sequence is at least [N0]. *)
Definition log_extends (L0 : list logrec) (N0 : nat) (tn : string) (d : db) : Prop :=
  exists s, ledger d = L0 ++ s /\ Forall (fun r => (N0 <= log_id r)%nat /\ l_table_name r = tn) s /\
            (N0 <= next_log_id d)%nat.

(** No open transaction: the session sees the committed state. *)
Definition txn_closed (w : world) : Prop := w_pending w = w_committed w /\ w_aborted w = false.




End Invariants.

(* ================================================================= *)
(** ** Step lemmas *)
(* ================================================================= *)
Module Facts.
Import Pandas Store Pipeline Props.

Section Steps.
Variable w : world.

Lemma connect_ok :
  env_connect (w_env w) = None ->
  create_connection w = (Ok tt, mkWorld (w_env w) (w_fs w) (w_committed w) (w_committed w) false ((w_trace w) ++ [EvConnect])).
Proof. intros H. unfold create_connection. rewrite H. reflexivity. Qed.

Lemma connect_inv u w' :
  create_connection w = (Ok u, w') -> w' = mkWorld (w_env w) (w_fs w) (w_committed w) (w_committed w) false ((w_trace w) ++ [EvConnect]).
Proof.
  unfold create_connection. destruct (env_connect (w_env w)); intros H; inversion H; reflexivity.
Qed.

Lemma exec_ok s r d' :
  w_aborted w = false -> env_fault (w_env w) s = None -> apply_stmt s (w_pending w) = inr (r, d') ->
  exec s w = (Ok r, mkWorld (w_env w) (w_fs w) (w_committed w) d' false ((w_trace w) ++ [EvExec s])).
Proof. intros Ha Hf Hs. unfold exec. rewrite Ha, Hf, Hs. reflexivity. Qed.

Lemma exec_fault s m :
  w_aborted w = false -> env_fault (w_env w) s = Some m ->
  exec s w = (Err (EDb m), mkWorld (w_env w) (w_fs w) (w_committed w) (w_pending w) true ((w_trace w) ++ [EvExec s])).
Proof. intros Ha Hf. unfold exec. rewrite Ha, Hf. reflexivity. Qed.

Lemma exec_inv s r w' :
  exec s w = (Ok r, w') ->
  w_aborted w = false /\ env_fault (w_env w) s = None /\
  exists d', apply_stmt s (w_pending w) = inr (r, d') /\ w' = mkWorld (w_env w) (w_fs w) (w_committed w) d' false ((w_trace w) ++ [EvExec s]).
Proof.
  unfold exec. destruct (w_aborted w); [intros H; discriminate H|].
  destruct (env_fault (w_env w) s); [intros H; discriminate H|].
  destruct (apply_stmt s (w_pending w)) as [m|[r' d']]; intros H; inversion H; subst.
  split; [reflexivity|]. split; [reflexivity|]. exists d'. split; reflexivity.
Qed.

Lemma commit_ok :
  w_aborted w = false -> commit w = (Ok tt, mkWorld (w_env w) (w_fs w) (w_pending w) (w_pending w) false ((w_trace w) ++ [EvCommit])).
Proof. intros Ha. unfold commit. rewrite Ha. reflexivity. Qed.

Lemma close_eq : close w = (Ok tt, mkWorld (w_env w) (w_fs w) (w_committed w) (w_committed w) false ((w_trace w) ++ [EvClose])).
Proof. reflexivity. Qed.

Lemma path_exists_eq p :
  path_exists p w =
    (Ok (match lookup p (w_fs w) with Some _ => true | None => false end),
     mkWorld (w_env w) (w_fs w) (w_committed w) (w_pending w) (w_aborted w)
       ((w_trace w) ++ [EvFileCheck p (match lookup p (w_fs w) with Some _ => true | None => false end)])).
Proof. reflexivity. Qed.

Lemma file_read_csv_inv p df w' :
  file_read_csv p w = (Ok df, w') -> exists f, lookup p (w_fs w) = Some f /\ read_csv f = Some df /\ w' = w.
Proof.
  unfold file_read_csv. destruct (lookup p (w_fs w)) as [f|]; [|intros H; discriminate H].
  destruct (read_csv f) as [df'|] eqn:Hr; intros H; inversion H; subst.
  exists f. auto.
Qed.

Lemma file_to_csv_ok p df :
  env_write (w_env w) = None ->
  file_to_csv p df w = (Ok tt, mkWorld (w_env w) (assoc_set p (to_csv df) (w_fs w)) (w_committed w) (w_pending w) (w_aborted w) ((w_trace w) ++ [EvWriteFile p])).
Proof. intros H. unfold file_to_csv. rewrite H. reflexivity. Qed.

Lemma file_to_csv_inv p df u w' :
  file_to_csv p df w = (Ok u, w') ->
  w' = mkWorld (w_env w) (assoc_set p (to_csv df) (w_fs w)) (w_committed w) (w_pending w) (w_aborted w) ((w_trace w) ++ [EvWriteFile p]).
Proof. unfold file_to_csv. destruct (env_write (w_env w)); intros H; inversion H; reflexivity. Qed.

End Steps.

Lemma log_start_ok w tn :
  w_aborted w = false -> env_fault (w_env w) (SInsertLog tn) = None ->
  log_start tn w =
    (Ok (next_log_id (w_pending w)),
     mkWorld (w_env w) (w_fs w) (started_db (w_pending w) tn) (started_db (w_pending w) tn) false
             (w_trace w ++ [EvExec (SInsertLog tn); EvCommit])).
Proof.
  intros Ha Hf. unfold log_start, bind, try_, ret.
  rewrite (exec_ok w _ (RId (next_log_id (w_pending w))) (started_db (w_pending w) tn) Ha Hf eq_refl).
  cbn; unfold commit, rollback, with_txn, emit; cbn; rewrite <- ?app_assoc; reflexivity.
Qed.

Lemma log_start_inv w tn id w' :
  log_start tn w = (Ok id, w') ->
  w_aborted w = false /\ id = next_log_id (w_pending w) /\
  w' = mkWorld (w_env w) (w_fs w) (started_db (w_pending w) tn) (started_db (w_pending w) tn) false
               (w_trace w ++ [EvExec (SInsertLog tn); EvCommit]).
Proof.
  unfold log_start, bind, try_, ret, raise.
  destruct (exec (SInsertLog tn) w) as [[r|e] w1] eqn:Hx; cbn; intros H.
  - apply exec_inv in Hx as (Ha & Hf & d' & Hs & ->). cbn in Hs. inversion Hs; subst.
    cbn in H. unfold commit, with_txn, emit in H; cbn in H. inversion H; subst.
    split; [exact Ha|]. split; [reflexivity|]. rewrite <- ?app_assoc. reflexivity.
  - discriminate H.
Qed.

Lemma log_end_ok w id st n msg :
  w_aborted w = false -> env_fault (w_env w) (SUpdateLog id st n msg) = None ->
  log_end id st n msg w =
    (Ok tt, mkWorld (w_env w) (w_fs w) (updated_db (w_pending w) id st n msg)
                    (updated_db (w_pending w) id st n msg) false
                    (w_trace w ++ [EvExec (SUpdateLog id st n msg); EvCommit])).
Proof.
  intros Ha Hf. unfold log_end, bind, try_, ret.
  rewrite (exec_ok w _ RNone (updated_db (w_pending w) id st n msg) Ha Hf eq_refl).
  cbn; unfold commit, rollback, with_txn, emit; cbn; rewrite <- ?app_assoc; reflexivity.
Qed.

Lemma log_end_fault w id st n msg m :
  w_aborted w = false -> env_fault (w_env w) (SUpdateLog id st n msg) = Some m ->
  log_end id st n msg w =
    (Err (EDb m), mkWorld (w_env w) (w_fs w) (w_committed w) (w_committed w) false
                          (w_trace w ++ [EvExec (SUpdateLog id st n msg); EvRollback])).
Proof.
  intros Ha Hf. unfold log_end, bind, try_, ret, raise.
  rewrite (exec_fault w _ m Ha Hf). cbn; unfold commit, rollback, with_txn, emit; cbn; rewrite <- ?app_assoc; reflexivity.
Qed.

Lemma log_end_inv w id st n msg u w' :
  log_end id st n msg w = (Ok u, w') ->
  w_aborted w = false /\
  w' = mkWorld (w_env w) (w_fs w) (updated_db (w_pending w) id st n msg)
               (updated_db (w_pending w) id st n msg) false
               (w_trace w ++ [EvExec (SUpdateLog id st n msg); EvCommit]).
Proof.
  unfold log_end, bind, try_, ret, raise.
  destruct (exec (SUpdateLog id st n msg) w) as [[r|e] w1] eqn:Hx; cbn; intros H.
  - apply exec_inv in Hx as (Ha & Hf & d' & Hs & ->). cbn in Hs. inversion Hs; subst.
    cbn in H. unfold commit, with_txn, emit in H; cbn in H. inversion H; subst.
    split; [exact Ha|]. rewrite <- ?app_assoc. reflexivity.
  - discriminate H.
Qed.

Lemma create_table_copy_ok w d :
  w_aborted w = false -> env_fault (w_env w) (SCreateLike target_table source_table) = None ->
  create_like target_table source_table (w_pending w) = inr d ->
  create_table_copy w =
    (Ok tt, mkWorld (w_env w) (w_fs w) d d false
                    (w_trace w ++ [EvExec (SCreateLike target_table source_table); EvCommit])).
Proof.
  intros Ha Hf Hc. unfold create_table_copy, bind, try_, ret.
  rewrite (exec_ok w _ RNone d Ha Hf); [|cbn; rewrite Hc; reflexivity].
  cbn; unfold commit, rollback, with_txn, emit; cbn; rewrite <- ?app_assoc; reflexivity.
Qed.

Lemma create_table_copy_inv w u w' :
  create_table_copy w = (Ok u, w') ->
  w_aborted w = false /\
  exists d, create_like target_table source_table (w_pending w) = inr d /\
  w' = mkWorld (w_env w) (w_fs w) d d false
               (w_trace w ++ [EvExec (SCreateLike target_table source_table); EvCommit]).
Proof.
  unfold create_table_copy, bind, try_, ret, raise.
  destruct (exec (SCreateLike target_table source_table) w) as [[r|e] w1] eqn:Hx; cbn; intros H.
  - apply exec_inv in Hx as (Ha & Hf & d' & Hs & ->). cbn in Hs.
    destruct (create_like target_table source_table (w_pending w)) as [m|d] eqn:Hc;
      inversion Hs; subst.
    cbn in H. unfold commit, with_txn, emit in H; cbn in H. inversion H; subst.
    split; [exact Ha|]. exists d'. split; [reflexivity|]. rewrite <- ?app_assoc. reflexivity.
  - discriminate H.
Qed.

Lemma read_sql_ok w tn t :
  w_aborted w = false -> env_fault (w_env w) (SSelectAll tn) = None ->
  lookup tn (tables (w_pending w)) = Some t ->
  read_sql tn w =
    (Ok (frame_of_rows (map c_name (t_cols t)) (t_rows t)),
     mkWorld (w_env w) (w_fs w) (w_committed w) (w_pending w) false (w_trace w ++ [EvExec (SSelectAll tn)])).
Proof.
  intros Ha Hf Hl. unfold read_sql, bind, try_, ret.
  rewrite (exec_ok w _ (RRows (map c_name (t_cols t)) (t_rows t)) (w_pending w) Ha Hf);
    [reflexivity|cbn; rewrite Hl; reflexivity].
Qed.

Lemma read_sql_fault w tn m :
  w_aborted w = false -> env_fault (w_env w) (SSelectAll tn) = Some m ->
  read_sql tn w =
    (Err (EReadSql (EDb m)),
     mkWorld (w_env w) (w_fs w) (w_committed w) (w_committed w) false
             (w_trace w ++ [EvExec (SSelectAll tn); EvRollback])).
Proof.
  intros Ha Hf. unfold read_sql, bind, try_, ret, raise.
  rewrite (exec_fault w _ m Ha Hf). cbn; unfold commit, rollback, with_txn, emit; cbn; rewrite <- ?app_assoc; reflexivity.
Qed.

Lemma read_sql_inv w tn df w' :
  read_sql tn w = (Ok df, w') ->
  w_aborted w = false /\
  exists t, lookup tn (tables (w_pending w)) = Some t /\
  df = frame_of_rows (map c_name (t_cols t)) (t_rows t) /\
  w' = mkWorld (w_env w) (w_fs w) (w_committed w) (w_pending w) false (w_trace w ++ [EvExec (SSelectAll tn)]).
Proof.
  unfold read_sql, bind, try_, ret, raise.
  destruct (exec (SSelectAll tn) w) as [[r|e] w1] eqn:Hx; cbn; intros H.
  - apply exec_inv in Hx as (Ha & Hf & d' & Hs & ->). cbn in Hs.
    destruct (lookup tn (tables (w_pending w))) as [t|] eqn:Hl; inversion Hs; subst.
    cbn in H. inversion H; subst. split; [exact Ha|]. exists t. auto.
  - destruct (rollback w1). discriminate H.
Qed.

End Facts.

(* ================================================================= *)
(** ** Loading: pages, adaptation, inserted rows *)
(* ================================================================= *)
Module Loading.
Import Pandas Store Pipeline Props Facts.

Lemma lookup_assoc_set_eq {A} k (v : A) l : lookup k (assoc_set k v l) = Some v.
Proof.
  induction l as [|[k' v'] l IH]; cbn.
  - rewrite String.eqb_refl. reflexivity.
  - destruct (String.eqb k k') eqn:Hk; cbn.
    + rewrite String.eqb_refl. reflexivity.
    + rewrite Hk. exact IH.
Qed.

Lemma lookup_assoc_set_neq {A} k k' (v : A) l :
  String.eqb k' k = false -> lookup k' (assoc_set k v l) = lookup k' l.
Proof.
  intros Hne. induction l as [|[k2 v2] l IH]; cbn.
  - rewrite Hne. reflexivity.
  - destruct (String.eqb k k2) eqn:Hk; cbn.
    + apply String.eqb_eq in Hk. subst k2. rewrite Hne. reflexivity.
    + destruct (String.eqb k' k2); [reflexivity | exact IH].
Qed.

Lemma assoc_set_twice {A} k (v1 v2 : A) l : assoc_set k v2 (assoc_set k v1 l) = assoc_set k v2 l.
Proof.
  induction l as [|[k' v'] l IH]; cbn.
  - rewrite String.eqb_refl. reflexivity.
  - destruct (String.eqb k k') eqn:Hk; cbn.
    + rewrite String.eqb_refl. reflexivity.
    + rewrite Hk, IH. reflexivity.
Qed.

(** *** Pages *)
Lemma paginate_fuel_map {A B} (g : A -> B) fuel n l :
  paginate_fuel fuel n (map g l) = map (map g) (paginate_fuel fuel n l).
Proof.
  revert l. induction fuel as [|f IH]; intros l; [reflexivity|].
  destruct l as [|x l]; [reflexivity|].
  change (map g (x :: l)) with (g x :: map g l).
  cbn [paginate_fuel]. rewrite <- map_cons, firstn_map, skipn_map, IH. reflexivity.
Qed.

Lemma paginate_map {A B} (g : A -> B) n l : paginate n (map g l) = map (map g) (paginate n l).
Proof. unfold paginate. rewrite length_map. apply paginate_fuel_map. Qed.

Lemma concat_paginate_fuel {A} fuel n (l : list A) :
  (1 <= n)%nat -> (length l <= fuel)%nat -> concat (paginate_fuel fuel n l) = l.
Proof.
  revert l. induction fuel as [|f IH]; intros l Hn Hl.
  - destruct l; [reflexivity | cbn in Hl; lia].
  - destruct l as [|x l']; [reflexivity|].
    cbn [paginate_fuel concat]. rewrite IH; [apply firstn_skipn | exact Hn |].
    rewrite length_skipn. change (length (x :: l')) with (S (length l')) in Hl |- *. lia.
Qed.

Lemma concat_paginate {A} n (l : list A) : (1 <= n)%nat -> concat (paginate n l) = l.
Proof. intros Hn. apply concat_paginate_fuel; [exact Hn | lia]. Qed.

(** *** Adaptation of cell values *)

Lemma mogrify_row_cells r : mogrify_row (map py_of_cell r) = Some (map lit_of_cell r).
Proof. induction r as [|[s|] r IH]; cbn; rewrite ?IH; reflexivity. Qed.

Lemma mogrify_rows_cells rs : mogrify_rows (map (map py_of_cell) rs) = Some (map (map lit_of_cell) rs).
Proof. induction rs as [|r rs IH]; cbn; rewrite ?mogrify_row_cells, ?IH; reflexivity. Qed.

Lemma mogrify_row_length r ls : mogrify_row r = Some ls -> length ls = length r.
Proof.
  revert ls. induction r as [|v r IH]; cbn; intros ls H.
  - inversion H; reflexivity.
  - destruct (adapt v), (mogrify_row r) eqn:Hr; inversion H; subst. cbn. f_equal. apply IH. reflexivity.
Qed.

Lemma mogrify_rows_length rs ls : mogrify_rows rs = Some ls -> length ls = length rs.
Proof.
  revert ls. induction rs as [|r rs IH]; cbn; intros ls H.
  - inversion H; reflexivity.
  - destruct (mogrify_row r), (mogrify_rows rs) eqn:Hr; inversion H; subst. cbn. f_equal. apply IH. reflexivity.
Qed.

(** *** The row the table receives *)
Lemma index_of_nth l k d :
  nodupb l = true -> (k < length l)%nat -> index_of (nth k l d) l = Some k.
Proof.
  revert k. induction l as [|x l IH]; intros k Hnd Hk; cbn in Hk; [lia|].
  cbn in Hnd. apply andb_true_iff in Hnd as [Hx Hnd]. apply negb_true_iff in Hx.
  destruct k as [|k]; cbn.
  - rewrite String.eqb_refl. reflexivity.
  - destruct (String.eqb (nth k l d) x) eqn:He.
    + apply String.eqb_eq in He. subst x. exfalso.
      assert (Hin : existsb (String.eqb (nth k l d)) l = true).
      { apply existsb_exists. exists (nth k l d). split; [apply nth_In; lia | apply String.eqb_refl]. }
      congruence.
    + rewrite IH; [reflexivity | exact Hnd | lia].
Qed.

Lemma literal_lit_of_cell c : literal_cell (lit_of_cell c) = c.
Proof. destruct c; reflexivity. Qed.

Lemma nth_map_in {A B} (f : A -> B) l k dA dB :
  (k < length l)%nat -> nth k (map f l) dB = f (nth k l dA).
Proof. intros Hk. rewrite nth_indep with (d' := f dA) by (rewrite length_map; lia). apply map_nth. Qed.

Lemma full_row_cells tcols r :
  nodupb (map c_name tcols) = true -> length r = length tcols ->
  full_row tcols (map c_name tcols) (map lit_of_cell r) = r.
Proof.
  intros Hnd Hlen. unfold full_row.
  apply nth_ext with (d := None) (d' := None); [rewrite length_map; congruence|].
  intros k Hk. rewrite length_map in Hk.
  rewrite (nth_map_in _ _ _ (mkColumn EmptyString false None)) by exact Hk. cbv beta.
  rewrite <- (nth_map_in c_name tcols k (mkColumn EmptyString false None) EmptyString) by exact Hk.
  rewrite index_of_nth; [|exact Hnd | rewrite length_map; exact Hk]. cbv beta iota.
  rewrite (nth_map_in lit_of_cell r k None LNull) by lia.
  apply literal_lit_of_cell.
Qed.

Lemma insert_rows_inv tn cols rows d d' :
  insert_rows tn cols rows d = inr d' ->
  exists t, lookup tn (tables d) = Some t /\
    d' = set_table tn (mkTable (t_cols t) (t_constrs t)
                               (t_rows t ++ map (full_row (t_cols t) (map name_sent cols)) rows)) d.
Proof.
  unfold insert_rows. destruct (_ || _); [intros H; discriminate H|].
  destruct (lookup tn (tables d)) as [t|]; [|intros H; discriminate H].
  destruct (negb _); [intros H; discriminate H|].
  destruct (negb (nodupb _)); [intros H; discriminate H|].
  destruct (negb (forallb _ rows)); [intros H; discriminate H|].
  destruct (negb (forallb _ _)); intros H; inversion H; subst. exists t. auto.
Qed.

(** *** Names without '%' *)
Lemma pct_format_plain l :
  existsb (fun c => Ascii.eqb c "%"%char) l = false -> pct_format l = Some l.
Proof.
  induction l as [|c l IH]; cbn; intros H; [reflexivity|].
  apply orb_false_iff in H as [Hc H]. rewrite Hc, (IH H). reflexivity.
Qed.

Lemma name_sent_plain s : has_pct s = false -> name_sent s = s.
Proof.
  unfold has_pct, name_sent. intros H. rewrite (pct_format_plain _ H).
  apply string_of_list_ascii_of_string.
Qed.

Lemma name_formats_plain s : has_pct s = false -> name_formats s = true.
Proof. unfold has_pct, name_formats. intros H. rewrite (pct_format_plain _ H). reflexivity. Qed.

Lemma names_sent_plain l : existsb has_pct l = false -> map name_sent l = l.
Proof.
  induction l as [|x l IH]; cbn; intros H; [reflexivity|].
  apply orb_false_iff in H as [Hx H]. rewrite name_sent_plain, IH by assumption. reflexivity.
Qed.

Lemma names_format_plain l : existsb has_pct l = false -> forallb name_formats l = true.
Proof.
  induction l as [|x l IH]; cbn; intros H; [reflexivity|].
  apply orb_false_iff in H as [Hx H]. rewrite name_formats_plain, IH by assumption. reflexivity.
Qed.

(** A page that [mogrify] formats is a page [mogrify_rows] adapts. *)
Lemma mogrify_page_inr b p l : mogrify_page b p = inr l -> mogrify_rows p = Some l.
Proof.
  revert l. induction p as [|r p IH]; cbn; intros l H; [inversion H; reflexivity|].
  destruct (mogrify_row r) as [lr|]; [|discriminate H].
  destruct b; [|discriminate H].
  destruct (mogrify_page true p) as [e|ls] eqn:E; [discriminate H|]. inversion H; subst.
  rewrite (IH ls eq_refl). reflexivity.
Qed.

Lemma mogrify_page_cells rs :
  mogrify_page true (map (map py_of_cell) rs) = inr (map (map lit_of_cell) rs).
Proof. induction rs as [|r rs IH]; cbn; rewrite ?mogrify_row_cells, ?IH; reflexivity. Qed.

Lemma names_in_table tcols :
  forallb (fun c => existsb (fun tc => String.eqb (c_name tc) c) tcols) (map c_name tcols) = true.
Proof.
  apply forallb_forall. intros c Hc. apply in_map_iff in Hc as (tc & <- & Hin).
  apply existsb_exists. exists tc. split; [exact Hin | apply String.eqb_refl].
Qed.

Lemma insert_rows_cells tn t rows d :
  lookup tn (tables d) = Some t ->
  t_cols t <> [] ->
  existsb has_dquote (map c_name (t_cols t)) = false ->
  existsb has_pct (map c_name (t_cols t)) = false ->
  nodupb (map c_name (t_cols t)) = true ->
  Forall (fun r => length r = length (t_cols t) /\ notnull_ok (t_cols t) r = true) rows ->
  insert_rows tn (map c_name (t_cols t)) (map (map lit_of_cell) rows) d =
    inr (set_table tn (mkTable (t_cols t) (t_constrs t) (t_rows t ++ rows)) d).
Proof.
  intros Hl Hne Hq Hp Hnd Hrows. unfold insert_rows. rewrite (names_sent_plain _ Hp), Hq.
  assert (E : match map c_name (t_cols t) with [] => true | _ => false end = false)
    by (destruct (t_cols t); [contradiction | reflexivity]).
  rewrite E. cbn [orb]. rewrite Hl, names_in_table, Hnd. cbn.
  assert (Hfull : map (full_row (t_cols t) (map c_name (t_cols t))) (map (map lit_of_cell) rows) = rows).
  { rewrite map_map. induction Hrows as [|r rs [Hlen _] _ IH]; [reflexivity|].
    cbn. rewrite full_row_cells by assumption. f_equal. exact IH. }
  assert (Hlen : forallb (fun r => Nat.eqb (length r) (length (map c_name (t_cols t))))
                         (map (map lit_of_cell) rows) = true).
  { apply forallb_forall. intros r Hr. apply in_map_iff in Hr as (r0 & <- & Hin).
    rewrite Forall_forall in Hrows. destruct (Hrows r0 Hin) as [Hl0 _].
    rewrite !length_map. apply Nat.eqb_eq. exact Hl0. }
  rewrite Hlen. cbn. rewrite Hfull.
  assert (Hnn : forallb (notnull_ok (t_cols t)) rows = true).
  { apply forallb_forall. intros r Hr. rewrite Forall_forall in Hrows. apply (Hrows r Hr). }
  rewrite Hnn. reflexivity.
Qed.

Lemma assoc_set_same {A} k (v : A) l : lookup k l = Some v -> assoc_set k v l = l.
Proof.
  induction l as [|[k' v'] l IH]; cbn; intros H; [discriminate H|].
  destruct (String.eqb k k') eqn:Hk.
  - apply String.eqb_eq in Hk. subst k'. inversion H; subst. reflexivity.
  - rewrite IH by exact H. reflexivity.
Qed.

Lemma set_table_same tn t d :
  lookup tn (tables d) = Some t ->
  set_table tn (mkTable (t_cols t) (t_constrs t) (t_rows t)) d = d.
Proof.
  intros Hl. destruct t as [cs ks rs]. destruct d as [ts lg nx]. unfold set_table. cbn in *.
  rewrite assoc_set_same by exact Hl. reflexivity.
Qed.

(** *** [execute_batch] on rows of text cells *)
Lemma run_pages_cells tn pages : forall w t,
  w_aborted w = false -> (forall s, env_fault (w_env w) s = None) ->
  lookup tn (tables (w_pending w)) = Some t ->
  t_cols t <> [] ->
  existsb has_dquote (map c_name (t_cols t)) = false ->
  existsb has_pct (map c_name (t_cols t)) = false ->
  nodupb (map c_name (t_cols t)) = true ->
  Forall (fun r => length r = length (t_cols t) /\ notnull_ok (t_cols t) r = true) (concat pages) ->
  exists tr, run_pages tn (map c_name (t_cols t)) (map (map (map py_of_cell)) pages) w =
    (Ok tt, mkWorld (w_env w) (w_fs w) (w_committed w)
                    (set_table tn (mkTable (t_cols t) (t_constrs t) (t_rows t ++ concat pages)) (w_pending w))
                    false (w_trace w ++ tr)).
Proof.
  induction pages as [|p ps IH]; intros w t Ha Hf Hl Hne Hq Hp Hnd Hrows.
  - exists []. cbn. rewrite app_nil_r, app_nil_r, set_table_same by exact Hl.
    destruct w. cbn in *. subst. reflexivity.
  - cbn [map run_pages concat]. rewrite (names_format_plain _ Hp), mogrify_page_cells.
    apply Forall_app in Hrows as [Hp0 Hps].
    unfold bind.
    rewrite (exec_ok w _ RNone (set_table tn (mkTable (t_cols t) (t_constrs t) (t_rows t ++ p)) (w_pending w))
               Ha (Hf _)); [| cbn; rewrite (insert_rows_cells tn t p _ Hl Hne Hq Hp Hnd Hp0); reflexivity].
    set (w1 := mkWorld _ _ _ _ _ _).
    destruct (IH w1 (mkTable (t_cols t) (t_constrs t) (t_rows t ++ p))) as [tr Hrun];
      [reflexivity | exact Hf | cbn; apply lookup_assoc_set_eq | exact Hne | exact Hq | exact Hp
      | exact Hnd | exact Hps |].
    cbn [t_cols] in Hrun. rewrite Hrun. exists ([EvExec (SInsertRows tn (map c_name (t_cols t))
                                                    (map (map lit_of_cell) p))] ++ tr).
    subst w1. cbn. unfold set_table. cbn. rewrite assoc_set_twice, <- !app_assoc. reflexivity.
Qed.

Lemma run_pages_inv tn cols pages : forall w u w',
  w_aborted w = false ->
  run_pages tn cols pages w = (Ok u, w') ->
  w_committed w' = w_committed w /\ w_env w' = w_env w /\ w_fs w' = w_fs w /\ w_aborted w' = false /\
  ledger (w_pending w') = ledger (w_pending w) /\ next_log_id (w_pending w') = next_log_id (w_pending w) /\
  (forall t, lookup tn (tables (w_pending w)) = Some t ->
     exists extra, lookup tn (tables (w_pending w')) = Some (mkTable (t_cols t) (t_constrs t) (t_rows t ++ extra))
                   /\ length extra = length (concat pages)).
Proof.
  induction pages as [|p ps IH]; intros w u w' Ha H.
  - cbn in H. inversion H; subst. repeat (split; [reflexivity|]). split; [exact Ha|].
    split; [reflexivity|]. split; [reflexivity|].
    intros t Hl. exists []. rewrite app_nil_r. destruct t. split; [exact Hl | reflexivity].
  - cbn [run_pages] in H. destruct (mogrify_page _ p) as [e|lits] eqn:Hm; [discriminate H|].
    apply mogrify_page_inr in Hm.
    unfold bind in H. destruct (exec (SInsertRows tn cols lits) w) as [[r|e] w1] eqn:Hx; [|discriminate H].
    apply exec_inv in Hx as (_ & _ & d' & Hs & ->). cbn in Hs.
    destruct (insert_rows tn cols lits (w_pending w)) as [m|d1] eqn:Hi; inversion Hs; subst.
    apply insert_rows_inv in Hi as (t0 & Hl0 & ->).
    apply IH in H as (Hc & He & Hfs & Ha' & Hlg & Hnx & Ht); [|reflexivity].
    cbn in Hc, He, Hfs, Hlg, Hnx. repeat (split; [assumption|]).
    intros t Hl. rewrite Hl in Hl0. inversion Hl0; subst t0.
    destruct (Ht (mkTable (t_cols t) (t_constrs t) (t_rows t ++ map (full_row (t_cols t) (map name_sent cols)) lits)))
      as (extra & Hl' & Hlen); [cbn; apply lookup_assoc_set_eq|].
    exists (map (full_row (t_cols t) (map name_sent cols)) lits ++ extra). cbn in Hl'. rewrite app_assoc. split; [exact Hl'|].
    rewrite length_app, length_map, Hlen, (mogrify_rows_length _ _ Hm). cbn [concat].
    rewrite length_app. reflexivity.
Qed.

End Loading.

(* ================================================================= *)
(** ** Round trips and whole runs *)
(* ================================================================= *)
Module Roundtrip.
Import Pandas Store Pipeline Props Facts Loading.

(** *** Reading back the exported file *)

(** Safe text is neither an NA marker nor an integer literal. *)
Lemma safe_classify s : safe_text s = true -> classify s = KText.
Proof.
  intros H. destruct s as [|c r]; [discriminate H|].
  unfold classify, is_na_field, parse_int, parse_unsigned.
  destruct c as [[] [] [] [] [] [] [] []]; cbn in H |- *; try discriminate H; reflexivity.
Qed.

Lemma safe_not_na s : safe_text s = true -> is_na_field s = false.
Proof.
  intros H. pose proof (safe_classify s H) as Hk. unfold classify in Hk.
  destruct (is_na_field s); [discriminate Hk | reflexivity].
Qed.

(** A cell of a row the amended C1 allows comes back from [read_csv] and
    [to_numpy] as the resolved cell, whatever the column dtypes. *)
Lemma convert_cell d d' col c :
  cell_ok col c = true ->
  normalize (as_array_value d' (convert_field d (field_of_cell c))) = py_of_cell (resolve c).
Proof.
  unfold field_of_cell, py_of_cell, render, resolve, cell_ok.
  destruct c as [s|]; intros H.
  - destruct (is_na_field s) eqn:Hna.
    + unfold convert_field, classify. rewrite Hna. destruct d'; reflexivity.
    + rewrite andb_false_l, orb_false_r in H. unfold convert_field. rewrite (safe_classify s H).
      destruct d, d'; reflexivity.
  - destruct d'; reflexivity.
Qed.

Lemma row_tuple D cols : forall r ds,
  length ds = length r -> length cols = length r ->
  forallb (fun '(c, v) => cell_ok c v) (combine cols r) = true ->
  map normalize (map (as_array_value D)
    (map (fun '(d, s) => convert_field d s) (combine ds (map field_of_cell r)))) =
  map py_of_cell (map resolve r).
Proof.
  induction cols as [|col cols IH]; intros r ds Hd Hc Hok.
  - destruct r; [destruct ds; reflexivity | discriminate Hc].
  - destruct r as [|c r]; [discriminate Hc|]. destruct ds as [|d ds]; [discriminate Hd|].
    cbn in Hok |- *. apply andb_prop in Hok as [Hc1 Hok].
    rewrite (convert_cell d D col c Hc1). f_equal.
    apply IH; [injection Hd | injection Hc | exact Hok]; auto.
Qed.

Lemma pad_records_same n rs :
  Forall (fun r => length r = n) rs -> pad_records n rs = Some rs.
Proof.
  induction 1 as [|r rs Hr _ IH]; [reflexivity|].
  cbn. rewrite IH. unfold pad_record. rewrite Hr, Nat.leb_refl, Nat.sub_diag. cbn.
  rewrite app_nil_r. reflexivity.
Qed.

(** [read_csv] of records that are not blank and have the header's
    length: no index, no padding. *)
Lemma filter_all {A} (f : A -> bool) l : Forall (fun x => f x = true) l -> filter f l = l.
Proof. induction 1 as [|x l Hx _ IH]; cbn; [reflexivity|]. rewrite Hx, IH. reflexivity. Qed.

Lemma read_csv_rect h rs :
  blank_record h = false ->
  Forall (fun r => blank_record r = false /\ length r = length h) rs ->
  read_csv (h :: rs) =
    Some (mkFrame (name_columns 0 h) (map (fun j => infer_dtype (column_fields rs j)) (seq 0 (length h)))
            (map (fun r => map (fun '(d, s) => convert_field d s)
                   (combine (map (fun j => infer_dtype (column_fields rs j)) (seq 0 (length h))) r)) rs)).
Proof.
  intros Hh Hrs. unfold read_csv. cbn [filter]. rewrite Hh. cbn [negb].
  rewrite (filter_all _ rs) by (eapply Forall_impl; [|exact Hrs]; intros r [Hr _]; rewrite Hr; reflexivity).
  assert (Hlead : match rs with [] => 0%nat | r :: _ => (length r - length h)%nat end = 0%nat).
  { destruct rs as [|r rs']; [reflexivity|]. inversion Hrs as [|? ? [_ Hr] _]; subst. rewrite Hr. apply Nat.sub_diag. }
  rewrite Hlead. cbn [Nat.add].
  rewrite pad_records_same by (eapply Forall_impl; [|exact Hrs]; intros r [_ Hr]; exact Hr).
  rewrite (map_ext (skipn 0) id) by reflexivity. rewrite map_id. reflexivity.
Qed.

(** How the fields of files of integers and NA markers are read. *)
Lemma KNa_classify s : is_KNa (classify s) = is_na_field s.
Proof. unfold classify. destruct (is_na_field s); [reflexivity|]. destruct (parse_int s); reflexivity. Qed.

Lemma infer_numeric col :
  col <> [] -> Forall (fun s => classify s <> KText) col ->
  infer_dtype col = if existsb is_na_field col then DFloat64 else DInt64.
Proof.
  intros Hne Hc. destruct col as [|s0 col']; [contradiction|].
  assert (Hk : forallb (fun k => is_KNa k || is_KInt k) (map classify (s0 :: col')) = true).
  { apply forallb_forall. intros k Hk. apply in_map_iff in Hk as (s & <- & Hs).
    rewrite Forall_forall in Hc. specialize (Hc s Hs). unfold classify in *.
    destruct (is_na_field s); [reflexivity|]. destruct (parse_int s); [reflexivity | contradiction]. }
  assert (He : existsb is_KNa (map classify (s0 :: col')) = existsb is_na_field (s0 :: col')).
  { generalize (s0 :: col'). induction l as [|s l IH]; [reflexivity|]. cbn. rewrite IH, KNa_classify. reflexivity. }
  unfold infer_dtype. rewrite Hk, He.
  destruct (forallb is_KNa (map classify (s0 :: col'))) eqn:Ha; [|reflexivity].
  cbn [map forallb] in Ha. apply andb_prop in Ha as [Ha _]. rewrite KNa_classify in Ha.
  cbn [existsb]. rewrite Ha. reflexivity.
Qed.

Lemma common_numeric ds :
  ds <> [] -> Forall (fun d => d = DInt64 \/ d = DFloat64) ds ->
  common_dtype ds = if forallb (dtype_eqb DInt64) ds then DInt64 else DFloat64.
Proof.
  intros Hne Hd. unfold common_dtype.
  assert (Ho : existsb (dtype_eqb DObject) ds = false).
  { apply not_true_iff_false. intros Hx. apply existsb_exists in Hx as (d & Hin & Hdo).
    rewrite Forall_forall in Hd. destruct (Hd d Hin) as [-> | ->]; discriminate Hdo. }
  rewrite Ho. destruct ds; [contradiction|]. reflexivity.
Qed.

Lemma row_forall2 (P : string -> pyval -> Prop) (D : dtype) (ds : list dtype) : forall (r : list string),
  length ds = length r ->
  (forall d s, In d ds -> P s (normalize (as_array_value D (convert_field d s)))) ->
  Forall2 P r (map normalize (map (as_array_value D) (map (fun '(d, s) => convert_field d s) (combine ds r)))).
Proof.
  induction ds as [|d ds IH]; intros r Hl HP; destruct r as [|s r]; try discriminate Hl; cbn; constructor.
  - apply HP. left. reflexivity.
  - apply IH; [injection Hl; auto|]. intros d' s' Hd'. apply HP. right. exact Hd'.
Qed.

Lemma rows_forall2 (P : string -> pyval -> Prop) (D : dtype) (ds : list dtype) (rs : list (list string)) :
  Forall (fun r => length r = length ds) rs ->
  (forall d s, In d ds -> P s (normalize (as_array_value D (convert_field d s)))) ->
  Forall2 (Forall2 P) rs
    (map (map normalize) (map (map (as_array_value D))
       (map (fun r => map (fun '(d, s) => convert_field d s) (combine ds r)) rs))).
Proof.
  intros Hl HP. induction Hl as [|r rs Hr _ IH]; cbn; constructor; [|exact IH].
  apply row_forall2; [symmetry; exact Hr | exact HP].
Qed.

Lemma field_na_text (D d : dtype) (s : string) :
  (is_na_field s = true -> normalize (as_array_value D (convert_field d s)) = PNone) /\
  (safe_text s = true -> normalize (as_array_value D (convert_field d s)) = PStr s).
Proof.
  split; intros H.
  - unfold convert_field, classify. rewrite H. destruct D; reflexivity.
  - unfold convert_field. rewrite (safe_classify s H). destruct d, D; reflexivity.
Qed.

Lemma nth_in_col rs j r :
  In r rs -> In (nth j r EmptyString) (column_fields rs j).
Proof. intros H. unfold column_fields. apply in_map_iff. exists r. auto. Qed.


Lemma numeric_cols (h : list string) (rs : list (list string)) (j : nat) :
  rs <> [] -> (j < length h)%nat ->
  Forall (fun r => length r = length h) rs ->
  Forall (Forall (fun s => classify s <> KText)) rs ->
  infer_dtype (column_fields rs j) = if existsb is_na_field (column_fields rs j) then DFloat64 else DInt64.
Proof.
  intros Hne Hj Hl Hn. apply infer_numeric.
  - unfold column_fields. destruct rs; [contradiction | discriminate].
  - unfold column_fields. apply Forall_forall. intros s Hs. apply in_map_iff in Hs as (r & <- & Hr).
    rewrite Forall_forall in Hl, Hn. specialize (Hn r Hr). rewrite Forall_forall in Hn.
    apply Hn. apply nth_In. rewrite (Hl r Hr). exact Hj.
Qed.

Lemma no_na_col (rs : list (list string)) (j : nat) :
  existsb (existsb is_na_field) rs = false ->
  Forall (fun r => (j < length r)%nat) rs ->
  existsb is_na_field (column_fields rs j) = false.
Proof.
  intros Hna Hl. unfold column_fields. apply not_true_iff_false. intros Hx.
  apply existsb_exists in Hx as (s & Hs & Hsn). apply in_map_iff in Hs as (r & <- & Hr).
  rewrite Forall_forall in Hl. apply not_true_iff_false in Hna. apply Hna.
  apply existsb_exists. exists r. split; [exact Hr|]. apply existsb_exists.
  exists (nth j r EmptyString). split; [apply nth_In, Hl, Hr | exact Hsn].
Qed.

Lemma na_col (rs : list (list string)) (n : nat) :
  existsb (existsb is_na_field) rs = true ->
  Forall (fun r => length r = n) rs ->
  exists j, (j < n)%nat /\ existsb is_na_field (column_fields rs j) = true.
Proof.
  intros Hna Hl. apply existsb_exists in Hna as (r & Hr & Hx). apply existsb_exists in Hx as (s & Hs & Hsn).
  apply In_nth with (d := EmptyString) in Hs as (j & Hj & Hjs).
  rewrite Forall_forall in Hl. rewrite (Hl r Hr) in Hj. exists j. split; [exact Hj|].
  apply existsb_exists. exists s. split; [|exact Hsn]. rewrite <- Hjs. apply nth_in_col. exact Hr.
Qed.

Lemma numeric_rows (h : list string) (rs : list (list string)) (ds : list dtype) :
  ds = map (fun j => infer_dtype (column_fields rs j)) (seq 0 (length h)) ->
  rs <> [] -> length h <> 0%nat ->
  Forall (fun r => length r = length h) rs ->
  Forall (Forall (fun s => classify s <> KText)) rs ->
  forall d s, In d ds ->
  forall z, classify s = KInt z ->
  normalize (as_array_value (common_dtype ds) (convert_field d s))
  = if existsb (existsb is_na_field) rs then PFloat (round53 z) else PNpInt z.
Proof.
  intros Eds Hne Hn Hl Hnum d s Hd z Hz.
    assert (Hds : forall j, In j (seq 0 (length h)) ->
            infer_dtype (column_fields rs j) = if existsb is_na_field (column_fields rs j) then DFloat64 else DInt64).
  { intros j Hj. apply in_seq in Hj. apply (numeric_cols h); auto; lia. }
  assert (Hnum_ds : Forall (fun d => d = DInt64 \/ d = DFloat64) ds).
  { apply Forall_forall. intros d' Hd'. rewrite Eds in *. apply in_map_iff in Hd' as (j & <- & Hj).
    rewrite (Hds j Hj). destruct (existsb _ _); auto. }
  assert (Hdsne : ds <> []).
  { rewrite Eds in *. destruct (length h); [contradiction | discriminate]. }
  rewrite (common_numeric ds Hdsne Hnum_ds).
  unfold convert_field. rewrite Hz.
  destruct (existsb (existsb is_na_field) rs) eqn:Hna.
  - destruct (na_col rs (length h) Hna Hl) as (j & Hj & Hjna).
    assert (Hf : forallb (dtype_eqb DInt64) ds = false).
    { apply not_true_iff_false. intros Hall. rewrite forallb_forall in Hall.
      assert (Hin : In (infer_dtype (column_fields rs j)) ds).
      { rewrite Eds. apply (in_map (fun j => infer_dtype (column_fields rs j))). apply in_seq. lia. }
      specialize (Hall _ Hin). rewrite (Hds j) in Hall by (apply in_seq; lia). rewrite Hjna in Hall.
      discriminate Hall. }
    rewrite Hf. rewrite Forall_forall in Hnum_ds. destruct (Hnum_ds d Hd) as [-> | ->]; reflexivity.
  - assert (Hall : forall d', In d' ds -> d' = DInt64).
    { intros d' Hd'. rewrite Eds in *. apply in_map_iff in Hd' as (j & <- & Hj).
      rewrite (Hds j Hj). rewrite no_na_col; [reflexivity | exact Hna |].
      apply in_seq in Hj. eapply Forall_impl; [|exact Hl]. intros r Hr. cbn in Hr. lia. }
    assert (Ht : forallb (dtype_eqb DInt64) ds = true).
    { apply forallb_forall. intros d' Hd'. rewrite (Hall d' Hd'). reflexivity. }
    rewrite Ht, (Hall d Hd). reflexivity.
Qed.

Lemma name_columns_plain h : forall i,
  forallb (fun s => negb (String.eqb s EmptyString)) h = true -> name_columns i h = h.
Proof.
  induction h as [|x h IH]; intros i H; cbn in H |- *; [reflexivity|].
  apply andb_prop in H as [Hx H]. apply negb_true_iff in Hx. rewrite Hx, IH by exact H. reflexivity.
Qed.

Lemma na_not_blank s : is_na_field s = true -> blank_record [s] = false.
Proof.
  unfold is_na_field. intros H. apply existsb_exists in H as (x & Hin & Hx).
  apply String.eqb_eq in Hx. subst x.
  repeat (destruct Hin as [<- | Hin]; [reflexivity|]). destruct Hin.
Qed.

Lemma safe_not_blank s : safe_text s = true -> blank_record [s] = false.
Proof.
  destruct s as [|c r]; [discriminate|]. cbn. intros H.
  destruct c as [[] [] [] [] [] [] [] []]; cbn in H |- *; try discriminate H; reflexivity.
Qed.

(** A row the amended C1 allows is not a blank line of the file. *)
Lemma row_not_blank cols r :
  cols <> [] -> row_ok cols r = true -> blank_record (map field_of_cell r) = false.
Proof.
  intros Hne Hr. unfold row_ok in Hr. apply andb_prop in Hr as [Hl Hok]. apply Nat.eqb_eq in Hl.
  destruct cols as [|c [|c2 cs]]; [contradiction| |].
  - destruct r as [|v [|v2 r]]; try discriminate Hl. cbn in Hok. rewrite andb_true_r in Hok.
    unfold cell_ok in Hok. destruct v as [s|]; [|reflexivity].
    unfold field_of_cell, py_of_cell, render.
    destruct (safe_text s) eqn:Hs; [apply safe_not_blank, Hs|].
    apply orb_prop in Hok as [Hok|Hok]; [discriminate Hok|]. apply andb_prop in Hok as [Hna _].
    apply na_not_blank, Hna.
  - destruct r as [|v [|v2 r]]; try discriminate Hl. reflexivity.
Qed.

Lemma frame_of_rows_cons cols rows :
  cols <> [] ->
  frame_of_rows cols rows =
    mkFrame cols (map (fun _ => DObject) cols)
      (map (map (fun c => match c with Some s => PStr s | None => PNone end)) rows).
Proof. destruct cols; [contradiction | reflexivity]. Qed.

(** [read_csv] of the file [to_csv] writes from [pd.read_sql]'s frame. *)
Lemma read_back cols rows :
  blank_record (map c_name cols) = false ->
  forallb (fun s => negb (String.eqb s EmptyString)) (map c_name cols) = true ->
  Forall (fun r => row_ok cols r = true) rows ->
  exists df, read_csv (to_csv (frame_of_rows (map c_name cols) rows)) = Some df /\
             columns df = map c_name cols /\
             data_tuples_of df = map (map py_of_cell) (map (map resolve) rows).
Proof.
  intros Hb Hne Hrows.
  assert (Hc : cols <> []) by (intros ->; discriminate Hb).
  assert (Hlen : Forall (fun r => length r = length cols) rows).
  { eapply Forall_impl; [|exact Hrows]. intros r Hr. unfold row_ok in Hr.
    apply andb_prop in Hr as [Hr _]. apply Nat.eqb_eq. exact Hr. }
  rewrite frame_of_rows_cons by (destruct cols; [contradiction | discriminate]).
  unfold to_csv. cbn [columns values].
  rewrite map_map.
  assert (Hf : map (fun x => map render (map (fun c => match c with Some s => PStr s | None => PNone end) x)) rows
               = map (map field_of_cell) rows).
  { apply map_ext. intros r. rewrite map_map. apply map_ext. intros [s|]; reflexivity. }
  rewrite Hf, read_csv_rect.
  2:{ exact Hb. }
  2:{ apply Forall_map. eapply Forall_impl; [|apply Forall_and; [exact Hrows | exact Hlen]].
      intros r [Hr Hl]. split; [exact (row_not_blank cols r Hc Hr)|]. rewrite !length_map. exact Hl. }
  eexists. split; [reflexivity|]. cbn [columns]. split; [apply name_columns_plain, Hne|].
  unfold data_tuples_of, to_numpy. cbn [dtypes values].
  rewrite !map_map. apply map_ext_in. intros r Hr.
  rewrite Forall_forall in Hrows, Hlen.
  specialize (Hrows r Hr). specialize (Hlen r Hr).
  unfold row_ok in Hrows. apply andb_prop in Hrows as [_ Hok].
  apply (row_tuple _ cols); [rewrite length_map, length_seq, length_map; auto | auto | exact Hok].
Qed.

(** Resolved rows satisfy the NOT NULL columns of the copy. *)
Lemma row_ok_resolved cols : forall r,
  row_ok cols r = true -> length (map resolve r) = length cols /\ notnull_ok cols (map resolve r) = true.
Proof.
  unfold row_ok, notnull_ok.
  induction cols as [|col cols IH]; intros r H; apply andb_prop in H as [Hn Hok];
    apply Nat.eqb_eq in Hn; destruct r as [|v r]; try discriminate Hn.
  - split; reflexivity.
  - cbn [length combine forallb map] in Hn, Hok |- *. injection Hn as Hn. apply andb_prop in Hok as [Hv Hok].
    destruct (IH r) as [IH1 IH2]; [rewrite Hok, Hn, Nat.eqb_refl; reflexivity|].
    rewrite IH1, IH2. split; [reflexivity|]. rewrite andb_true_r.
    unfold cell_ok, resolve in *. destruct v as [s|]; [|rewrite orb_false_r; exact Hv].
    destruct (safe_text s) eqn:Hs; [|rewrite orb_false_l in Hv].
    + rewrite (safe_not_na s Hs). apply orb_true_r.
    + apply andb_prop in Hv as [Hna Hnn]. rewrite Hna, orb_false_r. exact Hnn.
Qed.

(** *** Whole runs *)

Lemma name_ok_split l :
  forallb name_ok l = true ->
  existsb has_dquote l = false /\ existsb has_pct l = false /\
  forallb (fun s => negb (String.eqb s EmptyString)) l = true.
Proof.
  induction l as [|x l IH]; cbn; intros H; [auto|].
  apply andb_prop in H as [Hx H]. unfold name_ok in Hx.
  apply andb_prop in Hx as [Hx Hp]. apply andb_prop in Hx as [He Hq].
  apply negb_true_iff in Hq, Hp. rewrite Hq, Hp, He. cbn. exact (IH H).
Qed.

(** The number of rows [pd.read_sql] returns for a table: its row count,
    or none for a table without columns. *)
Definition rows_read (t : table) : nat :=
  length (values (frame_of_rows (map c_name (t_cols t)) (t_rows t))).

Lemma rows_read_eq t :
  rows_read t = match t_cols t with [] => 0%nat | _ => length (t_rows t) end.
Proof. unfold rows_read, frame_of_rows. destruct (t_cols t); cbn; [reflexivity | apply length_map]. Qed.

Lemma exec_trace s w r w' :
  exec s w = (r, w') -> w_committed w' = w_committed w /\ w_trace w' = w_trace w ++ [EvExec s].
Proof.
  unfold exec. destruct (w_aborted w); [intros H; inversion H; auto|].
  destruct (env_fault (w_env w) s); [intros H; inversion H; auto|].
  destruct (apply_stmt s (w_pending w)) as [m|[r0 d]]; intros H; inversion H; auto.
Qed.

Lemma create_like_ledger a b d0 d :
  create_like a b d0 = inr d -> ledger d = ledger d0 /\ next_log_id d = next_log_id d0.
Proof.
  unfold create_like. destruct (lookup a (tables d0)).
  - intros H. inversion H. auto.
  - destruct (lookup b (tables d0)); intros H; inversion H. auto.
Qed.

(** The UPDATE by the fresh id touches only the row the INSERT added. *)
Lemma update_log_fresh d tn st n msg :
  ledger_wf d = true ->
  map (update_log (next_log_id d) st n msg) (ledger d ++ [mkLog (next_log_id d) tn "started" 0 None false]) =
  ledger d ++ [mkLog (next_log_id d) tn st n msg true].
Proof.
  unfold ledger_wf. intros H. rewrite map_app. cbn. unfold update_log at 2. cbn. rewrite Nat.eqb_refl.
  f_equal. rewrite forallb_forall in H.
  rewrite <- (map_id (ledger d)) at 2. apply map_ext_in. intros r Hr.
  specialize (H r Hr). apply Nat.ltb_lt in H. unfold update_log.
  destruct (Nat.eqb (log_id r) (next_log_id d)) eqn:He; [apply Nat.eqb_eq in He; lia | reflexivity].
Qed.

(** [execute_batch] writes no ledger row. *)
Lemma run_pages_trace tn cols pages : forall w r w',
  run_pages tn cols pages w = (r, w') ->
  exists tr, w_trace w' = w_trace w ++ tr /\ filter is_ledger_write tr = [].
Proof.
  induction pages as [|p ps IH]; intros w r w' H; cbn in H.
  - inversion H; subst. exists []. rewrite app_nil_r. auto.
  - destruct (mogrify_page _ p) as [e|lits].
    + inversion H; subst. exists []. rewrite app_nil_r. auto.
    + unfold bind in H. destruct (exec (SInsertRows tn cols lits) w) as [[r1|e] w1] eqn:Hx;
        apply exec_trace in Hx as [_ Hx].
      * apply IH in H as (tr & Htr & Hf). exists (EvExec (SInsertRows tn cols lits) :: tr).
        rewrite Htr, Hx, <- app_assoc. split; [reflexivity | exact Hf].
      * inversion H; subst. exists [EvExec (SInsertRows tn cols lits)]. auto.
Qed.

(** The except block always raises. *)
Lemma on_failure_err o e w : exists e' w', on_failure o e w = (Err e', w').
Proof.
  destruct o as [id|]; [|exists e, w; reflexivity].
  unfold on_failure, bind.
  destruct (log_end id "failed" 0 (Some (err_str e)) w) as [[u|e'] w1]; [exists e, w1 | exists e', w1]; reflexivity.
Qed.

(** A failed INSERT of the ledger row, or a failed provisioning, is
    rolled back and sends no UPDATE. *)
Lemma log_start_err w tn e w' :
  log_start tn w = (Err e, w') ->
  w_committed w' = w_committed w /\
  exists tr, w_trace w' = w_trace w ++ tr /\ forallb (fun ev => negb (is_update ev)) tr = true.
Proof.
  unfold log_start, bind, try_, ret, raise.
  destruct (exec (SInsertLog tn) w) as [[r|e1] w1] eqn:Hx; cbn; intros H.
  - apply exec_inv in Hx as (Ha & Hf & d' & Hs & ->). cbn in Hs. inversion Hs; subst.
    cbn in H. unfold commit, with_txn, emit in H; cbn in H. discriminate H.
  - apply exec_trace in Hx as [Hc Hx]. unfold rollback, with_txn, emit in H. cbn in H. inversion H; subst. cbn.
    split; [exact Hc|]. exists [EvExec (SInsertLog tn); EvRollback]. rewrite Hx, <- app_assoc. auto.
Qed.

Lemma create_table_copy_err w e w' :
  create_table_copy w = (Err e, w') ->
  w_committed w' = w_committed w /\
  exists tr, w_trace w' = w_trace w ++ tr /\ forallb (fun ev => negb (is_update ev)) tr = true.
Proof.
  unfold create_table_copy, bind, try_, ret, raise.
  destruct (exec (SCreateLike target_table source_table) w) as [[r|e1] w1] eqn:Hx; cbn; intros H.
  - apply exec_inv in Hx as (Ha & Hf & d' & Hs & ->). cbn in H.
    unfold commit, with_txn, emit in H; cbn in H. discriminate H.
  - apply exec_trace in Hx as [Hc Hx]. unfold rollback, with_txn, emit in H. cbn in H. inversion H; subst. cbn.
    split; [exact Hc|]. exists [EvExec (SCreateLike target_table source_table); EvRollback].
    rewrite Hx, <- app_assoc. auto.
Qed.

(** The export on a store that accepts everything. *)
Lemma export_ok w t :
  no_faults (w_env w) ->
  lookup source_table (tables (w_committed w)) = Some t ->
  export_f101_to_csv w =
   (Ok tt,
    mkWorld (w_env w)
      (assoc_set export_file (to_csv (frame_of_rows (map c_name (t_cols t)) (t_rows t))) (w_fs w))
      (updated_db (started_db (w_committed w) source_table) (next_log_id (w_committed w))
                  "completed" (rows_read t) None)
      (updated_db (started_db (w_committed w) source_table) (next_log_id (w_committed w))
                  "completed" (rows_read t) None)
      false
      (w_trace w ++ [EvConnect; EvExec (SInsertLog source_table); EvCommit;
                     EvExec (SSelectAll source_table); EvWriteFile export_file;
                     EvExec (SUpdateLog (next_log_id (w_committed w)) "completed" (rows_read t) None);
                     EvCommit; EvClose])).
Proof.
  intros (Hc & Hf & Hw) Hl.
  unfold export_f101_to_csv, bind, try_, finally.
  rewrite (connect_ok w Hc). cbn -[log_start export_body close].
  unfold log_export_start.
  rewrite log_start_ok by auto. cbn -[export_body close].
  unfold export_body, bind.
  rewrite (read_sql_ok _ source_table t) by (cbn; auto). cbn -[log_end close].
  rewrite file_to_csv_ok by exact Hw. cbn -[log_end close].
  rewrite log_end_ok by (cbn; auto). cbn -[close]. rewrite close_eq. cbn.
  rewrite <- !app_assoc. reflexivity.
Qed.

(** The import of a file whose rows reach psycopg2 as text cells. *)
Lemma import_cells_ok w f df d1 t rows :
  no_faults (w_env w) ->
  lookup import_file (w_fs w) = Some f -> read_csv f = Some df ->
  create_like target_table source_table (w_committed w) = inr d1 ->
  lookup target_table (tables d1) = Some t ->
  columns df = map c_name (t_cols t) ->
  data_tuples_of df = map (map py_of_cell) rows ->
  t_cols t <> [] ->
  existsb has_dquote (map c_name (t_cols t)) = false ->
  existsb has_pct (map c_name (t_cols t)) = false ->
  nodupb (map c_name (t_cols t)) = true ->
  Forall (fun r => length r = length (t_cols t) /\ notnull_ok (t_cols t) r = true) rows ->
  exists w', import_f101_from_csv w = (Ok tt, w') /\ rows_of target_table (w_committed w') = Some rows.
Proof.
  intros (Hc & Hf & Hw) Hfile Hread Hcl Hl Hcols Hdt Hne Hq Hp Hnd Hrows.
  unfold import_f101_from_csv, bind, try_, finally.
  rewrite (connect_ok w Hc). cbn -[create_table_copy log_start import_body close].
  rewrite (create_table_copy_ok _ d1) by (cbn; auto). cbn -[log_start import_body close].
  unfold log_import_start. rewrite log_start_ok by (cbn; auto). cbn -[import_body close].
  unfold import_body, bind. rewrite path_exists_eq. cbn -[file_read_csv exec commit execute_batch log_end close].
  rewrite Hfile. cbn -[file_read_csv exec commit execute_batch log_end close].
  unfold file_read_csv at 1. cbn [w_fs]. rewrite Hfile, Hread.
  cbn -[exec commit execute_batch log_end close].
  rewrite (exec_ok _ _ RNone (set_table target_table (mkTable (t_cols t) (t_constrs t) [])
                                        (started_db d1 target_table)))
    by (cbn; auto; unfold started_db; cbn; rewrite Hl; reflexivity).
  cbn -[commit execute_batch log_end close].
  rewrite commit_ok by reflexivity. cbn -[execute_batch log_end close].
  rewrite Hcols, Hdt. unfold execute_batch. rewrite paginate_map.
  destruct (run_pages_cells target_table (paginate 1000 rows)
              (mkWorld (w_env w) (w_fs w)
                 (set_table target_table (mkTable (t_cols t) (t_constrs t) []) (started_db d1 target_table))
                 (set_table target_table (mkTable (t_cols t) (t_constrs t) []) (started_db d1 target_table))
                 false
                 ((((((w_trace w ++ [EvConnect]) ++
                     [EvExec (SCreateLike target_table source_table); EvCommit]) ++
                    [EvExec (SInsertLog target_table); EvCommit]) ++
                   [EvFileCheck import_file true]) ++ [EvExec (STruncate target_table)]) ++ [EvCommit]))
              (mkTable (t_cols t) (t_constrs t) []))
    as [tr Hrun];
    [reflexivity | exact Hf | apply lookup_assoc_set_eq | exact Hne | exact Hq | exact Hp | exact Hnd
    | rewrite concat_paginate by lia; exact Hrows |].
  cbn [t_cols] in Hrun. rewrite Hrun. cbn -[log_end close].
  unfold log_import_end. rewrite log_end_ok by (cbn; auto). cbn -[close].
  rewrite close_eq. cbn. eexists. split; [reflexivity|].
  unfold rows_of, updated_db, set_table. cbn.
  rewrite assoc_set_twice, lookup_assoc_set_eq. cbn. rewrite concat_paginate by lia. reflexivity.
Qed.

(** What an export that returns normally did. *)
Lemma export_ok_inv w w' :
  export_f101_to_csv w = (Ok tt, w') ->
  exists t, lookup source_table (tables (w_committed w)) = Some t /\
   w_committed w' = updated_db (started_db (w_committed w) source_table) (next_log_id (w_committed w))
                               "completed" (rows_read t) None /\
   w_trace w' = w_trace w ++ [EvConnect; EvExec (SInsertLog source_table); EvCommit;
                              EvExec (SSelectAll source_table); EvWriteFile export_file;
                              EvExec (SUpdateLog (next_log_id (w_committed w)) "completed" (rows_read t) None);
                              EvCommit; EvClose].
Proof.
  intros H. unfold export_f101_to_csv, bind, try_, finally in H.
  destruct (create_connection w) as [[u|e] w1] eqn:H1; cbn -[log_export_start export_body on_failure close] in H;
    [|discriminate H].
  apply connect_inv in H1. subst w1.
  destruct (log_export_start _) as [[id|e] w2] eqn:H2; cbn -[export_body on_failure close] in H.
  2:{ destruct (on_failure_err None e w2) as (e' & w3 & Hf). rewrite Hf in H. destruct (close w3). discriminate H. }
  destruct (export_body id w2) as [[u3|e] w3] eqn:H3; cbn -[on_failure close] in H.
  2:{ destruct (on_failure_err (Some id) e w3) as (e' & w4 & Hf). rewrite Hf in H. destruct (close w4). discriminate H. }
  rewrite close_eq in H. inversion H; subst w'. clear H.
  unfold log_export_start in H2. apply log_start_inv in H2 as (_ & -> & ->).
  unfold export_body, bind in H3. cbn [w_pending w_committed] in H3.
  destruct (read_sql source_table _) as [[df|e] w4] eqn:H4; [|discriminate H3].
  apply read_sql_inv in H4 as (_ & t & Hl & -> & ->).
  destruct (file_to_csv export_file _ _) as [[u1|e] w5] eqn:H5; [|discriminate H3].
  apply file_to_csv_inv in H5. subst w5.
  unfold log_export_end in H3. apply log_end_inv in H3 as (_ & ->).
  exists t. cbn in Hl |- *. split; [exact Hl|].
  split; [reflexivity|]. rewrite <- !app_assoc. reflexivity.
Qed.

(** What an import that returns normally did. *)
Lemma import_ok_inv w w' :
  import_f101_from_csv w = (Ok tt, w') ->
  exists n tr rows,
   ledger (w_committed w') =
     map (update_log (next_log_id (w_committed w)) "completed" n None)
         (ledger (w_committed w) ++ [mkLog (next_log_id (w_committed w)) target_table "started" 0 None false]) /\
   rows_of target_table (w_committed w') = Some rows /\ length rows = n /\
   w_trace w' = w_trace w ++ tr /\
   filter is_ledger_write tr =
     [EvExec (SInsertLog target_table); EvExec (SUpdateLog (next_log_id (w_committed w)) "completed" n None)].
Proof.
  intros H. unfold import_f101_from_csv, bind, try_, finally in H.
  destruct (create_connection w) as [[u|e] w1] eqn:H1;
    cbn -[create_table_copy log_import_start import_body on_failure close] in H; [|discriminate H].
  apply connect_inv in H1. subst w1.
  destruct (create_table_copy _) as [[u2|e] w2] eqn:H2;
    cbn -[log_import_start import_body on_failure close] in H.
  2:{ destruct (on_failure_err None e w2) as (e' & w3 & Hf). rewrite Hf in H. destruct (close w3). discriminate H. }
  apply create_table_copy_inv in H2 as (_ & d & Hcl & ->).
  destruct (log_import_start _) as [[id|e] w3] eqn:H3; cbn -[import_body on_failure close] in H.
  2:{ destruct (on_failure_err None e w3) as (e' & w4 & Hf). rewrite Hf in H. destruct (close w4). discriminate H. }
  unfold log_import_start in H3. apply log_start_inv in H3 as (_ & -> & ->). cbn [w_pending] in H.
  destruct (import_body _ _) as [[u4|e] w4] eqn:H4; cbn -[on_failure close] in H.
  2:{ destruct (on_failure_err (Some (next_log_id d)) e w4) as (e' & w5 & Hf). rewrite Hf in H.
      destruct (close w5). discriminate H. }
  rewrite close_eq in H. inversion H; subst w'. clear H.
  unfold import_body, bind in H4. rewrite path_exists_eq in H4. cbn [w_fs] in H4.
  destruct (lookup import_file (w_fs w)) as [f|] eqn:Hf; cbn -[file_read_csv exec commit execute_batch log_import_end] in H4;
    [|discriminate H4].
  destruct (file_read_csv import_file _) as [[df|e] w5] eqn:H5; [|discriminate H4].
  apply file_read_csv_inv in H5 as (f' & _ & _ & ->).
  destruct (exec (STruncate target_table) _) as [[r|e] w6] eqn:H6; [|discriminate H4].
  apply exec_inv in H6 as (_ & _ & d6 & Hs & ->). cbn in Hs.
  destruct (lookup target_table (tables d)) as [t|] eqn:Ht; inversion Hs; subst d6; clear Hs.
  rewrite commit_ok in H4 by reflexivity. cbn -[execute_batch log_import_end] in H4.
  destruct (execute_batch _ _ _ _ _) as [[u8|e] w8] eqn:H8; [|discriminate H4].
  unfold execute_batch in H8.
  pose proof (run_pages_trace _ _ _ _ _ _ H8) as (trp & Htrp & Hfp).
  apply run_pages_inv in H8 as (_ & _ & _ & _ & Hlg & _ & Hrows); [|reflexivity].
  unfold log_import_end in H4. apply log_end_inv in H4 as (_ & ->).
  cbn in Hlg, Hrows, Htrp.
  destruct (Hrows (mkTable (t_cols t) (t_constrs t) [])) as (extra & Hl8 & Hlen);
    [apply lookup_assoc_set_eq|].
  apply create_like_ledger in Hcl as [Hld Hnx].
  rewrite concat_paginate in Hlen by lia.
  exists (length (data_tuples_of df)).
  eexists. exists extra. cbn. rewrite Hlg, Hld, Hnx.
  split; [reflexivity|]. split; [unfold rows_of; cbn; rewrite Hl8; reflexivity|].
  split; [exact Hlen|]. split.
  - rewrite Htrp, <- !app_assoc. reflexivity.
  - rewrite !filter_app, Hfp. reflexivity.
Qed.

Lemma Forall2_map_r {A B} (R : A -> B -> Prop) (f : A -> B) l :
  (forall x, In x l -> R x (f x)) -> Forall2 R l (map f l).
Proof.
  induction l as [|x l IH]; intros H; constructor.
  - apply H. left. reflexivity.
  - apply IH. intros y Hy. apply H. right. exact Hy.
Qed.

End Roundtrip.

(* ================================================================= *)
(** ** Invariant rules and frame lemmas *)
(* ================================================================= *)
Module Frames.
Import Pandas Store Pipeline Props Invariants Facts Loading Roundtrip.

(** *** Rules for the monad's operations and the scripts' helpers *)
Section Rules.
Variable Pd : db -> Prop.
Variable Pf : list (string * csv) -> Prop.

Lemma hoare_ret {A} (a : A) (Q : A -> Prop) : Q a -> hoare (inv Pd Pf) (ret a) Q.
Proof. intros HQ w Hw. split; [exact Hw|]. intros a' H. inversion H; subst. exact HQ. Qed.

Lemma hoare_raise {A} e (Q : A -> Prop) : hoare (inv Pd Pf) (raise e) Q.
Proof. intros w Hw. split; [exact Hw|]. intros a H. discriminate H. Qed.

Lemma hoare_bind {A B} (m : M A) (k : A -> M B) Q1 Q2 :
  hoare (inv Pd Pf) m Q1 -> (forall a, Q1 a -> hoare (inv Pd Pf) (k a) Q2) ->
  hoare (inv Pd Pf) (bind m k) Q2.
Proof.
  intros Hm Hk w Hw. unfold bind. specialize (Hm w Hw).
  destruct (m w) as [[a|e] w1]; cbn in Hm |- *; destruct Hm as [H1 H2].
  - apply Hk; [apply H2; reflexivity | exact H1].
  - split; [exact H1|]. intros a H. discriminate H.
Qed.

Lemma hoare_try {A} (m : M A) Q :
  hoare (inv Pd Pf) m Q -> hoare (inv Pd Pf) (try_ m) (fun r => forall a, r = Ok a -> Q a).
Proof.
  intros Hm w Hw. unfold try_. specialize (Hm w Hw).
  destruct (m w) as [r w1]; cbn in Hm |- *. destruct Hm as [H1 H2].
  split; [exact H1|]. intros r' Hr a Ha. inversion Hr; subst. apply H2. reflexivity.
Qed.

Lemma hoare_finally {A} (m : M A) fin Q :
  hoare (inv Pd Pf) m Q -> hoare (inv Pd Pf) fin (fun _ => True) -> hoare (inv Pd Pf) (finally m fin) Q.
Proof.
  intros Hm Hf w Hw. unfold finally. specialize (Hm w Hw).
  destruct (m w) as [r w1]; cbn in Hm |- *. destruct Hm as [H1 H2].
  specialize (Hf w1 H1). destruct (fin w1) as [r2 w2]; cbn in Hf |- *.
  split; [apply Hf | exact H2].
Qed.

Lemma hoare_exec s : stmt_keeps Pd s -> hoare (inv Pd Pf) (exec s) (stmt_result Pd s).
Proof.
  intros Hs w (Hc & Hp & Hf). unfold exec.
  destruct (w_aborted w); [split; [repeat split; assumption | intros a H; discriminate H]|].
  destruct (env_fault (w_env w) s); [split; [repeat split; assumption | intros a H; discriminate H]|].
  destruct (apply_stmt s (w_pending w)) as [m|[r d']] eqn:Ha;
    [split; [repeat split; assumption | intros a H; discriminate H]|].
  split; [repeat split; [exact Hc | exact (Hs _ _ _ Hp Ha) | exact Hf]|].
  intros a H. inversion H; subst. exists (w_pending w), d'. auto.
Qed.

Lemma hoare_commit : hoare (inv Pd Pf) commit (fun _ => True).
Proof.
  intros w (Hc & Hp & Hf). unfold commit.
  destruct (w_aborted w); (split; [repeat split; assumption | auto]).
Qed.

Lemma hoare_rollback : hoare (inv Pd Pf) rollback (fun _ => True).
Proof. intros w (Hc & Hp & Hf). split; [repeat split; assumption | auto]. Qed.

Lemma hoare_close : hoare (inv Pd Pf) close (fun _ => True).
Proof. intros w (Hc & Hp & Hf). split; [repeat split; assumption | auto]. Qed.

Lemma hoare_fetch_id r : hoare (inv Pd Pf) (fetch_id r) (fun id => r = RId id).
Proof.
  destruct r; unfold fetch_id; try apply hoare_raise.
  apply hoare_ret. reflexivity.
Qed.

Lemma hoare_path_exists p : hoare (inv Pd Pf) (path_exists p) (fun _ => True).
Proof. intros w (Hc & Hp & Hf). split; [repeat split; assumption | auto]. Qed.

Lemma hoare_file_read_csv p : hoare (inv Pd Pf) (file_read_csv p) (fun _ => True).
Proof.
  intros w Hw. unfold file_read_csv.
  destruct (lookup p (w_fs w)); [destruct (read_csv c)|]; (split; [exact Hw | auto]).
Qed.

Lemma hoare_file_to_csv p df :
  (forall fs, Pf fs -> Pf (assoc_set p (to_csv df) fs)) ->
  hoare (inv Pd Pf) (file_to_csv p df) (fun _ => True).
Proof.
  intros HP w (Hc & Hp & Hf). unfold file_to_csv.
  destruct (env_write (w_env w)); (split; [repeat split; cbn; auto | auto]).
Qed.

Lemma hoare_log_start tn :
  stmt_keeps Pd (SInsertLog tn) ->
  hoare (inv Pd Pf) (log_start tn) (fun id => stmt_result Pd (SInsertLog tn) (RId id)).
Proof.
  intros Hs. unfold log_start.
  eapply hoare_bind.
  - apply (hoare_try _ (fun id => stmt_result Pd (SInsertLog tn) (RId id))).
    eapply hoare_bind; [apply hoare_exec, Hs|]. intros r Hr.
    eapply hoare_bind; [apply hoare_fetch_id|]. intros id Hid. cbn beta in Hid.
    eapply hoare_bind; [apply hoare_commit|]. intros _ _.
    apply hoare_ret. subst r. exact Hr.
  - intros [id|e] Hres.
    + apply hoare_ret. apply Hres. reflexivity.
    + eapply hoare_bind; [apply hoare_rollback|]. intros _ _. apply hoare_raise.
Qed.

Lemma hoare_log_end id st n msg :
  stmt_keeps Pd (SUpdateLog id st n msg) -> hoare (inv Pd Pf) (log_end id st n msg) (fun _ => True).
Proof.
  intros Hs. unfold log_end.
  eapply hoare_bind.
  - apply hoare_try. eapply hoare_bind; [apply hoare_exec, Hs|]. intros _ _. apply hoare_commit.
  - intros [u|e] _.
    + apply hoare_ret. exact I.
    + eapply hoare_bind; [apply hoare_rollback|]. intros _ _. apply hoare_raise.
Qed.

Lemma hoare_create_table_copy :
  stmt_keeps Pd (SCreateLike target_table source_table) ->
  hoare (inv Pd Pf) create_table_copy (fun _ => True).
Proof.
  intros Hs. unfold create_table_copy.
  eapply hoare_bind.
  - apply hoare_try. eapply hoare_bind; [apply hoare_exec, Hs|]. intros _ _. apply hoare_commit.
  - intros [u|e] _.
    + apply hoare_ret. exact I.
    + eapply hoare_bind; [apply hoare_rollback|]. intros _ _. apply hoare_raise.
Qed.

Lemma hoare_read_sql tn :
  stmt_keeps Pd (SSelectAll tn) -> hoare (inv Pd Pf) (read_sql tn) (fun _ => True).
Proof.
  intros Hs. unfold read_sql.
  eapply hoare_bind; [apply hoare_try, hoare_exec, Hs|].
  intros [[| |cols rows]|e] _; try (apply hoare_raise); try (apply hoare_ret; exact I).
  eapply hoare_bind; [apply hoare_rollback|]. intros _ _. apply hoare_raise.
Qed.

Lemma hoare_on_failure o e (Q : unit -> Prop) :
  (forall id, o = Some id -> stmt_keeps Pd (SUpdateLog id "failed" 0 (Some (err_str e)))) ->
  hoare (inv Pd Pf) (on_failure o e) Q.
Proof.
  intros Hs. destruct o as [id|]; unfold on_failure; [|apply hoare_raise].
  eapply hoare_bind; [apply hoare_log_end, Hs; reflexivity|]. intros _ _. apply hoare_raise.
Qed.

Lemma hoare_run_pages tn cols pages :
  (forall lits, stmt_keeps Pd (SInsertRows tn cols lits)) ->
  hoare (inv Pd Pf) (run_pages tn cols pages) (fun _ => True).
Proof.
  intros Hs. induction pages as [|p ps IH]; cbn [run_pages]; [apply hoare_ret; exact I|].
  destruct (mogrify_page _ p) as [e|lits]; [apply hoare_raise|].
  eapply hoare_bind; [apply hoare_exec, Hs|]. intros _ _. exact IH.
Qed.


Lemma hoare_export_body id :
  stmt_keeps Pd (SSelectAll source_table) ->
  (forall n, stmt_keeps Pd (SUpdateLog id "completed" n None)) ->
  (forall fs df, Pf fs -> Pf (assoc_set export_file (to_csv df) fs)) ->
  hoare (inv Pd Pf) (export_body id) (fun _ => True).
Proof.
  intros Hsel Hupd Hfs. unfold export_body.
  eapply hoare_bind; [apply hoare_read_sql, Hsel|]. intros df _.
  eapply hoare_bind; [apply hoare_file_to_csv; intros fs; apply Hfs|]. intros _ _.
  apply hoare_log_end, Hupd.
Qed.

Lemma hoare_import_body id :
  stmt_keeps Pd (STruncate target_table) ->
  (forall cols lits, stmt_keeps Pd (SInsertRows target_table cols lits)) ->
  (forall n, stmt_keeps Pd (SUpdateLog id "completed" n None)) ->
  hoare (inv Pd Pf) (import_body id) (fun _ => True).
Proof.
  intros Htr Hins Hupd. unfold import_body.
  eapply hoare_bind; [apply hoare_path_exists|]. intros found _.
  destruct (negb found); [apply hoare_raise|].
  eapply hoare_bind; [apply hoare_file_read_csv|]. intros df _.
  eapply hoare_bind; [apply hoare_exec, Htr|]. intros _ _.
  eapply hoare_bind; [apply hoare_commit|]. intros _ _.
  eapply hoare_bind; [apply hoare_run_pages, Hins|]. intros _ _.
  apply hoare_log_end, Hupd.
Qed.

(** Opening the connection: a failed attempt changes nothing, a
    successful one starts from the committed state. *)
Lemma conn_rule {A} (k : result unit -> M A) (Q : A -> Prop) w :
  (forall e w1, k (Err e) w1 = (Err e, w1)) ->
  hoare (inv Pd Pf) (k (Ok tt)) Q ->
  Pd (w_committed w) -> Pf (w_fs w) ->
  Pd (w_committed (snd (bind (try_ create_connection) k w))) /\
  Pf (w_fs (snd (bind (try_ create_connection) k w))).
Proof.
  intros Herr Hok Hc Hf. unfold bind, try_, create_connection.
  destruct (env_connect (w_env w)) as [m|].
  - rewrite Herr. cbn. auto.
  - destruct (Hok (emit EvConnect (with_txn (w_committed w) (w_committed w) false w)))
      as [[H1 [_ H3]] _]; [repeat split; assumption|]. split; assumption.
Qed.

(** Whatever the server and the files do, an export keeps every
    invariant its statements and its file write keep. *)
Lemma export_keeps :
  stmt_keeps Pd (SInsertLog source_table) ->
  stmt_keeps Pd (SSelectAll source_table) ->
  (forall id st n msg, stmt_result Pd (SInsertLog source_table) (RId id) ->
     stmt_keeps Pd (SUpdateLog id st n msg)) ->
  (forall fs df, Pf fs -> Pf (assoc_set export_file (to_csv df) fs)) ->
  forall w, Pd (w_committed w) -> Pf (w_fs w) ->
  Pd (w_committed (snd (export_f101_to_csv w))) /\ Pf (w_fs (snd (export_f101_to_csv w))).
Proof.
  intros Hins Hsel Hupd Hfs w Hc Hf. unfold export_f101_to_csv.
  apply (conn_rule _ (fun _ => True)); [reflexivity| |assumption|assumption].
  apply hoare_finally; [|apply hoare_close].
  eapply hoare_bind; [apply hoare_try, hoare_log_start, Hins|].
  intros [id|e] Hr; [|apply hoare_on_failure; discriminate].
  assert (Hid : stmt_result Pd (SInsertLog source_table) (RId id)) by (apply Hr; reflexivity).
  eapply hoare_bind; [apply hoare_try, hoare_export_body; auto|].
  intros [u|e] _; [apply hoare_ret; exact I|].
  apply hoare_on_failure. intros id' Hid'. inversion Hid'; subst. auto.
Qed.

(** The same for an import, whose statements are the provisioning, the
    ledger's, the TRUNCATE and the batch INSERTs; it writes no file. *)
Lemma import_keeps :
  stmt_keeps Pd (SCreateLike target_table source_table) ->
  stmt_keeps Pd (SInsertLog target_table) ->
  (forall id st n msg, stmt_result Pd (SInsertLog target_table) (RId id) ->
     stmt_keeps Pd (SUpdateLog id st n msg)) ->
  stmt_keeps Pd (STruncate target_table) ->
  (forall cols lits, stmt_keeps Pd (SInsertRows target_table cols lits)) ->
  forall w, Pd (w_committed w) -> Pf (w_fs w) ->
  Pd (w_committed (snd (import_f101_from_csv w))) /\ Pf (w_fs (snd (import_f101_from_csv w))).
Proof.
  intros Hcr Hins Hupd Htr Hrows w Hc Hf. unfold import_f101_from_csv.
  apply (conn_rule _ (fun _ => True)); [reflexivity| |assumption|assumption].
  apply hoare_finally; [|apply hoare_close].
  eapply hoare_bind; [apply hoare_try, hoare_create_table_copy, Hcr|].
  intros [u|e] _; [|apply hoare_on_failure; discriminate].
  eapply hoare_bind; [apply hoare_try, hoare_log_start, Hins|].
  intros [id|e] Hr; [|apply hoare_on_failure; discriminate].
  assert (Hid : stmt_result Pd (SInsertLog target_table) (RId id)) by (apply Hr; reflexivity).
  eapply hoare_bind; [apply hoare_try, hoare_import_body; auto|].
  intros [u'|e] _; [apply hoare_ret; exact I|].
  apply hoare_on_failure. intros id' Hid'. inversion Hid'; subst. auto.
Qed.

End Rules.

(** *** Statements and the parts of the store they touch *)

(** The ledger statements and the SELECT leave the tables alone. *)
Lemma ledger_stmt_tables s d r d' :
  (match s with SInsertLog _ | SUpdateLog _ _ _ _ | SSelectAll _ => True | _ => False end) ->
  apply_stmt s d = inr (r, d') -> tables d' = tables d.
Proof.
  intros Hs H. destruct s; try contradiction; cbn in H.
  - inversion H; reflexivity.
  - inversion H; reflexivity.
  - destruct (lookup t (tables d)); inversion H; reflexivity.
Qed.

(** The other statements leave the ledger and its sequence alone. *)
Lemma table_stmt_ledger s d r d' :
  (match s with SInsertLog _ | SUpdateLog _ _ _ _ => False | _ => True end) ->
  apply_stmt s d = inr (r, d') -> ledger d' = ledger d /\ next_log_id d' = next_log_id d.
Proof.
  intros Hs H. destruct s; try contradiction; cbn in H.
  - destruct (create_like target reference d) eqn:E; inversion H; subst.
    apply (create_like_ledger _ _ _ _ E).
  - destruct (lookup t (tables d)); inversion H; auto.
  - destruct (lookup t (tables d)); inversion H; auto.
  - destruct (insert_rows t cols rows d) eqn:E; inversion H; subst.
    apply insert_rows_inv in E as (tb & _ & ->). auto.
Qed.

(** *** The ledger invariant [log_extends] *)
Lemma log_extends_keep L0 N0 tn s :
  (match s with SInsertLog _ | SUpdateLog _ _ _ _ => False | _ => True end) ->
  stmt_keeps (log_extends L0 N0 tn) s.
Proof.
  intros Hs d r d' (sf & Hl & Hf & Hn) H.
  destruct (table_stmt_ledger _ _ _ _ Hs H) as [E1 E2].
  exists sf. rewrite E1, E2. auto.
Qed.

Lemma log_extends_insert L0 N0 tn : stmt_keeps (log_extends L0 N0 tn) (SInsertLog tn).
Proof.
  intros d r d' (sf & Hl & Hf & Hn) H. cbn in H. inversion H; subst; clear H.
  exists (sf ++ [mkLog (next_log_id d) tn "started" 0 None false]). cbn.
  rewrite Hl, app_assoc. split; [reflexivity|]. split; [|lia].
  apply Forall_app. split; [exact Hf|]. constructor; [cbn; split; [lia | reflexivity] | constructor].
Qed.

Lemma log_extends_id L0 N0 tn id :
  stmt_result (log_extends L0 N0 tn) (SInsertLog tn) (RId id) -> (N0 <= id)%nat.
Proof.
  intros (d & d' & (sf & _ & _ & Hn) & H). cbn in H. inversion H; subst. exact Hn.
Qed.

Lemma log_extends_update L0 N0 tn id st n msg :
  Forall (fun r => (log_id r < N0)%nat) L0 -> (N0 <= id)%nat ->
  stmt_keeps (log_extends L0 N0 tn) (SUpdateLog id st n msg).
Proof.
  intros HL0 Hid d r d' (sf & Hl & Hf & Hn) H. cbn in H. inversion H; subst; clear H.
  exists (map (update_log id st n msg) sf). cbn. rewrite Hl, map_app.
  split; [|split; [|exact Hn]].
  - f_equal. rewrite <- (map_id L0) at 2. apply map_ext_in. intros r Hr.
    rewrite Forall_forall in HL0. specialize (HL0 r Hr).
    unfold update_log. destruct (Nat.eqb (log_id r) id) eqn:E; [apply Nat.eqb_eq in E; lia | reflexivity].
  - rewrite Forall_map. eapply Forall_impl; [|exact Hf]. intros r Hr.
    unfold update_log. destruct (Nat.eqb (log_id r) id); exact Hr.
Qed.

Lemma ledger_wf_forall d :
  ledger_wf d = true -> Forall (fun r => (log_id r < next_log_id d)%nat) (ledger d).
Proof.
  unfold ledger_wf. intros H. apply Forall_forall. intros r Hr.
  rewrite forallb_forall in H. apply Nat.ltb_lt, H, Hr.
Qed.

(** *** The connection and the transaction *)
Lemma finally_close {A} (m : M A) w :
  exists tr, w_trace (snd (finally m close w)) = tr ++ [EvClose] /\ txn_closed (snd (finally m close w)).
Proof.
  unfold finally. destruct (m w) as [r w1]. rewrite close_eq. cbn.
  exists (w_trace w1). split; [reflexivity | split; reflexivity].
Qed.

Lemma connected_eq {A} (body : M A) w :
  env_connect (w_env w) = None ->
  bind (try_ create_connection) (fun c => match c with Err e => raise e | Ok _ => finally body close end) w =
  finally body close (mkWorld (w_env w) (w_fs w) (w_committed w) (w_committed w) false (w_trace w ++ [EvConnect])).
Proof. intros Hc. unfold bind at 1, try_ at 1. rewrite (connect_ok w Hc). reflexivity. Qed.

Lemma commit_closed w : txn_closed (snd (commit w)).
Proof. unfold commit. destruct (w_aborted w); split; reflexivity. Qed.

Lemma rollback_closed w : txn_closed (snd (rollback w)).
Proof. split; reflexivity. Qed.

(** *** Pages of [execute_batch] *)
Lemma paginate_fuel_length {A} fuel n (l : list A) :
  (1 <= n)%nat -> (length l <= fuel)%nat ->
  length (paginate_fuel fuel n l) = ((length l + n - 1) / n)%nat.
Proof.
  revert l. induction fuel as [|f IH]; intros l Hn Hl.
  - destruct l; [cbn | cbn in Hl; lia]. symmetry. apply Nat.div_small. lia.
  - destruct l as [|x l']; [cbn; symmetry; apply Nat.div_small; lia|].
    cbn [paginate_fuel]. cbn [length] in Hl |- *.
    rewrite IH; [| exact Hn | rewrite length_skipn; cbn [length]; lia].
    rewrite length_skipn. cbn [length].
    remember (S (length l')) as m eqn:Em.
    destruct (Nat.le_gt_cases n m) as [Hle|Hlt].
    + replace (m + n - 1)%nat with ((m - n + n - 1) + 1 * n)%nat by lia.
      rewrite Nat.div_add by lia. lia.
    + replace (m - n)%nat with 0%nat by lia. cbn [Nat.add].
      rewrite (Nat.div_small (n - 1)) by lia.
      apply (Nat.div_unique (m + n - 1) n 1 (m - 1)); lia.
Qed.

Lemma paginate_fuel_bounds {A} fuel n (l : list A) :
  (1 <= n)%nat -> Forall (fun p => (1 <= length p <= n)%nat) (paginate_fuel fuel n l).
Proof.
  revert l. induction fuel as [|f IH]; intros l Hn; [constructor|].
  destruct l as [|x l']; [constructor|]. cbn [paginate_fuel]. constructor; [|apply IH, Hn].
  rewrite length_firstn. cbn. lia.
Qed.

Lemma mogrify_rows_app r1 r2 l1 l2 :
  mogrify_rows r1 = Some l1 -> mogrify_rows r2 = Some l2 -> mogrify_rows (r1 ++ r2) = Some (l1 ++ l2).
Proof.
  revert l1. induction r1 as [|r rs IH]; intros l1 H1 H2; cbn in H1 |- *.
  - inversion H1; subst. exact H2.
  - destruct (mogrify_row r) as [x|]; [|discriminate H1].
    destruct (mogrify_rows rs) as [xs|] eqn:E; [|discriminate H1]. inversion H1; subst.
    rewrite (IH xs eq_refl H2). reflexivity.
Qed.

Lemma run_pages_ok_trace tn cols pages : forall w u w',
  run_pages tn cols pages w = (Ok u, w') ->
  exists ls, Forall2 (fun p l => mogrify_rows p = Some l) pages ls /\
    w_trace w' = w_trace w ++ map (fun l => EvExec (SInsertRows tn cols l)) ls.
Proof.
  induction pages as [|p ps IH]; intros w u w' H; cbn in H.
  - inversion H; subst. exists []. rewrite app_nil_r. split; [constructor | reflexivity].
  - destruct (mogrify_page _ p) as [e|lits] eqn:Hm; [discriminate H|].
    apply mogrify_page_inr in Hm.
    unfold bind in H. destruct (exec (SInsertRows tn cols lits) w) as [[r|e] w1] eqn:Hx; [|discriminate H].
    apply exec_trace in Hx as [_ Hx].
    destruct (IH _ _ _ H) as (ls & Hf & Ht).
    exists (lits :: ls). split; [constructor; assumption|].
    rewrite Ht, Hx, <- app_assoc. reflexivity.
Qed.


End Frames.

(* ================================================================= *)
(** ** The except blocks' ledger update *)
(* ================================================================= *)
Module Reporting.
Import Pandas Store Pipeline Props Invariants.





























End Reporting.

(* ================================================================= *)
(** ** The claims on concrete runs *)
(* ================================================================= *)
Module Runs.
Import Pandas Store Pipeline Props Samples.
Local Open Scope string_scope.

(** C1 (counterexample): exporting a table whose text value is ["007"]
    and importing the unchanged file yields ["7"]: pandas reads the
    column as int64 and the integer 7 is inserted. *)
Lemma C1_roundtrip_leading_zero_cex :
  let (r, w) := roundtrip w_fresh in
  r = Ok tt /\
  rows_of source_table (w_committed w_fresh) = Some [[Some "007"; Some "x"]] /\
  rows_of target_table (w_committed w) = Some [[Some "7"; Some "x"]] /\
  ~ Permutation [[Some "7"; Some "x"]] (map (map resolve) [[Some "007"; Some "x"]]).
Proof.
  vm_compute. split; [reflexivity|]. split; [reflexivity|]. split; [reflexivity|].
  intro Hp. apply Permutation_length_1 in Hp. discriminate Hp.
Qed.

(** C2 (counterexample): with no input file the import commits the
    provisioning DDL and the "started" ledger row before it checks the
    file. *)
Lemma C2_missing_file_writes_first_cex :
  let (r, w) := import_f101_from_csv w_fresh in
  r = Err (EFileNotFound import_file) /\
  before_check (w_trace w) =
    [EvConnect; EvExec (SCreateLike target_table source_table); EvCommit;
     EvExec (SInsertLog target_table); EvCommit].
Proof. vm_compute. split; reflexivity. Qed.

(** C3 (code bug): an insert the server rejects leaves the transaction
    aborted; the "failed" update then fails too, the ledger row stays
    "started" and the error that propagates is not the insert's. *)
Lemma C3_failed_status_lost_after_insert_error :
  let (r, w) := import_f101_from_csv (fresh_world env_ok [(import_file, csv_null_a)]) in
  r = Err EInFailedTxn /\
  map l_status (ledger (w_committed w)) = ["started"] /\
  In (EvExec (SUpdateLog 0 "failed" 0 (Some "null value violates not-null constraint"))) (w_trace w).
Proof.
  vm_compute. split; [reflexivity|]. split; [reflexivity|].
  repeat (first [left; reflexivity | right]).
Qed.


(** C5 (code bug): the INSERT round trips are not committed on their own:
    the next commit is the ledger update's.  When that update fails the
    rollback removes the inserted rows, and the later "failed" record is
    committed with the target table empty. *)
Lemma C5_insert_shares_ledger_transaction :
  snd (import_f101_from_csv (fresh_world env_ok [(import_file, csv_small)])) =
    mkWorld env_ok
      [(import_file, csv_small)]
      (snd (import_f101_from_csv (fresh_world env_ok [(import_file, csv_small)]))).(w_committed)
      (snd (import_f101_from_csv (fresh_world env_ok [(import_file, csv_small)]))).(w_committed)
      false
      [EvConnect; EvExec (SCreateLike target_table source_table); EvCommit;
       EvExec (SInsertLog target_table); EvCommit;
       EvFileCheck import_file true;
       EvExec (STruncate target_table); EvCommit;
       EvExec (SInsertRows target_table ["a"; "b"] [[LStr "A1"; LStr "x"]; [LStr "B2"; LNull]]);
       EvExec (SUpdateLog 0 "completed" 2 None); EvCommit; EvClose] /\
  let (r, w) := import_f101_from_csv (fresh_world env_completed_update [(import_file, csv_small)]) in
  r = Err (EDb "deadlock detected") /\
  rows_of target_table (w_committed w) = Some [] /\
  map l_status (ledger (w_committed w)) = ["failed"].
Proof. vm_compute. split; [reflexivity|]. split; [reflexivity|]. split; reflexivity. Qed.

(** C6 (counterexample): the copy made by [create_table_copy] lacks the
    reference table's primary key, also after a second call. *)
Lemma C6_primary_key_not_copied_cex :
  let w1 := snd (create_table_copy w_fresh) in
  let w2 := snd (create_table_copy w1) in
  option_map t_constrs (lookup target_table (tables (w_committed w2))) =
    Some [CCheck "b_len" "length(b) < 10"] /\
  t_constrs src_tbl = [CPrimaryKey ["a"]; CCheck "b_len" "length(b) < 10"] /\
  option_map t_constrs (lookup target_table (tables (w_committed w2))) <> Some (t_constrs src_tbl).
Proof. vm_compute. split; [reflexivity|]. split; [reflexivity | discriminate]. Qed.

(** C7 (counterexample): in a buffer whose columns are int64 and float64,
    [to_numpy] widens the integer 1 to the float 1.0 before it reaches
    the insert. *)
Lemma C7_int_widened_to_float_cex :
  values frame_int_nan = [[PNpInt 1; PNaN]] /\
  data_tuples_of frame_int_nan = [[PFloat 1; PNone]] /\
  nth 0 (nth 0 (data_tuples_of frame_int_nan) []) PNone <> nth 0 (nth 0 (values frame_int_nan) []) PNone.
Proof. vm_compute. split; [reflexivity|]. split; [reflexivity | discriminate]. Qed.

(** C8 (code bug): a buffer whose columns are all int64 reaches psycopg2
    as numpy.int64 scalars, which it cannot adapt: no row is inserted and
    the run fails. *)
Lemma C8_all_int_buffer_not_inserted :
  let (r, w) := import_f101_from_csv (fresh_world env_ok [(import_file, csv_ints)]) in
  r = Err ECantAdapt /\
  rows_of target_table (w_committed w) = Some [] /\
  map l_status (ledger (w_committed w)) = ["failed"] /\
  map l_records (ledger (w_committed w)) = [0%nat].
Proof. vm_compute. split; [reflexivity|]. split; [reflexivity|]. split; reflexivity. Qed.

End Runs.

(* ================================================================= *)
(** ** The claims over all runs *)
(* ================================================================= *)
Module General.
Import Pandas Store Pipeline Props Invariants Samples Facts Loading Roundtrip Reporting.

(** C1 (corrected): with a store that accepts every statement, a source
    table with at least one column, distinct column names that are not
    empty and hold no double quote and no '%', a header line that is not
    blank (one column named by spaces only), and values that are NULL,
    NA markers in nullable columns, or text starting with a letter that
    cannot begin a number, a boolean or an NA marker, exporting and
    importing the unchanged file into an absent target gives a target
    whose rows are the source rows, in order, with every NA marker read
    as NULL. *)
Theorem C1_roundtrip_safe_text w t :
  no_faults (w_env w) ->
  lookup source_table (tables (w_committed w)) = Some t ->
  lookup target_table (tables (w_committed w)) = None ->
  forallb name_ok (map c_name (t_cols t)) = true ->
  blank_record (map c_name (t_cols t)) = false ->
  nodupb (map c_name (t_cols t)) = true ->
  Forall (fun r => row_ok (t_cols t) r = true) (t_rows t) ->
  let (r, w') := roundtrip w in
  r = Ok tt /\ rows_of target_table (w_committed w') = Some (map (map resolve) (t_rows t)).
Proof.
  intros Hnf Hs Ht Hn Hb Hnd Hrows.
  destruct (name_ok_split _ Hn) as (Hq & Hp & Hne).
  assert (Hc : t_cols t <> []) by (intros E; rewrite E in Hb; discriminate Hb).
  destruct (read_back (t_cols t) (t_rows t) Hb Hne Hrows) as (df & Hread & Hcols & Hdt).
  unfold roundtrip. rewrite (export_ok w t Hnf Hs). cbn [snd].
  unfold copy_file. cbn [w_fs]. rewrite lookup_assoc_set_eq. unfold with_fs. cbn.
  set (D := updated_db _ _ _ _ _).
  match goal with |- context [import_f101_from_csv ?W] =>
    destruct (import_cells_ok W (to_csv (frame_of_rows (map c_name (t_cols t)) (t_rows t))) df
                (set_table target_table (like_copy t) D) (like_copy t) (map (map resolve) (t_rows t)))
      as (w' & Hrun & Hrows'); [| | | | | | | | | | | | rewrite Hrun; split; [reflexivity | exact Hrows']]
  end.
  - exact Hnf.
  - cbn. apply lookup_assoc_set_eq.
  - exact Hread.
  - cbn. unfold create_like. subst D. cbn. rewrite Ht, Hs. reflexivity.
  - apply lookup_assoc_set_eq.
  - exact Hcols.
  - exact Hdt.
  - exact Hc.
  - exact Hq.
  - exact Hp.
  - exact Hnd.
  - apply Forall_map. eapply Forall_impl; [|exact Hrows]. intros r Hr. exact (row_ok_resolved _ r Hr).
Qed.

Lemma C1_roundtrip_safe_text_witness :
  let (r, w') := roundtrip w_text in
  r = Ok tt /\ rows_of target_table (w_committed w') = Some (map (map resolve) (t_rows src_text)).
Proof.
  apply (C1_roundtrip_safe_text w_text src_text).
  - split; [reflexivity | split; [intros s; reflexivity | reflexivity]].
  - reflexivity.
  - reflexivity.
  - reflexivity.
  - reflexivity.
  - reflexivity.
  - repeat constructor.
Defined.

(** C2 (corrected): when the input file is missing, the import fails with
    the file-not-found error, but only after it has committed the
    provisioning DDL and the ledger's "started" row; the except block then
    marks that row failed. *)
Theorem C2_missing_file_after_ledger_begin w d :
  no_faults (w_env w) -> ledger_wf (w_committed w) = true ->
  create_like target_table source_table (w_committed w) = inr d ->
  lookup import_file (w_fs w) = None ->
  let (r, w') := import_f101_from_csv w in
  r = Err (EFileNotFound import_file) /\
  w_trace w' = w_trace w ++
    [EvConnect; EvExec (SCreateLike target_table source_table); EvCommit;
     EvExec (SInsertLog target_table); EvCommit;
     EvFileCheck import_file false;
     EvExec (SUpdateLog (next_log_id (w_committed w)) "failed" 0 (Some (err_str (EFileNotFound import_file))));
     EvCommit; EvClose] /\
  ledger (w_committed w') = ledger (w_committed w) ++
    [mkLog (next_log_id (w_committed w)) target_table "failed" 0 (Some (err_str (EFileNotFound import_file))) true] /\
  tables (w_committed w') = tables d.
Proof.
  intros (Hc & Hf & Hw) Hwf Hcl Hfile.
  pose proof (create_like_ledger _ _ _ _ Hcl) as [Hld Hnx].
  unfold import_f101_from_csv, bind, try_, finally.
  rewrite (connect_ok w Hc). cbn -[create_table_copy log_start import_body on_failure close].
  rewrite (create_table_copy_ok _ d) by (cbn; auto). cbn -[log_start import_body on_failure close].
  unfold log_import_start. rewrite log_start_ok by (cbn; auto). cbn -[import_body on_failure close].
  unfold import_body, bind. rewrite path_exists_eq. cbn [w_fs]. rewrite Hfile.
  cbn -[on_failure close]. unfold on_failure, bind.
  rewrite log_end_ok by (cbn; auto). cbn -[close]. rewrite close_eq. cbn.
  rewrite Hnx. split; [reflexivity|]. split; [rewrite <- !app_assoc; reflexivity|].
  split; [|reflexivity].
  rewrite Hld. apply update_log_fresh. exact Hwf.
Qed.

Lemma C2_missing_file_after_ledger_begin_witness :
  let (r, w') := import_f101_from_csv w_fresh in
  r = Err (EFileNotFound import_file) /\
  w_trace w' = w_trace w_fresh ++
    [EvConnect; EvExec (SCreateLike target_table source_table); EvCommit;
     EvExec (SInsertLog target_table); EvCommit;
     EvFileCheck import_file false;
     EvExec (SUpdateLog (next_log_id (w_committed w_fresh)) "failed" 0 (Some (err_str (EFileNotFound import_file))));
     EvCommit; EvClose] /\
  ledger (w_committed w') = ledger (w_committed w_fresh) ++
    [mkLog (next_log_id (w_committed w_fresh)) target_table "failed" 0 (Some (err_str (EFileNotFound import_file))) true] /\
  tables (w_committed w') = tables (set_table target_table (like_copy src_tbl) db0).
Proof.
  apply (C2_missing_file_after_ledger_begin w_fresh (set_table target_table (like_copy src_tbl) db0)).
  - split; [reflexivity | split; [intros s; reflexivity | reflexivity]].
  - reflexivity.
  - reflexivity.
  - reflexivity.
Defined.



(** C6 (corrected): [CREATE TABLE IF NOT EXISTS] makes provisioning
    idempotent.  When the target already exists, whatever its rows and
    columns, the call raises nothing and changes nothing: its statement
    is a no-op, and the commit only commits the open transaction.  When
    the target is absent, the first call creates it with the reference's
    columns (names, NOT NULL, defaults) and only its CHECK constraints
    (no primary key, unique or foreign key constraint), leaves every
    other table as it was, and a second call changes nothing. *)
Theorem C6_provisioning_idempotent_checks_only w :
  w_aborted w = false ->
  env_fault (w_env w) (SCreateLike target_table source_table) = None ->
  (forall t, lookup target_table (tables (w_pending w)) = Some t ->
     create_table_copy w =
       (Ok tt, mkWorld (w_env w) (w_fs w) (w_pending w) (w_pending w) false
                 (w_trace w ++ [EvExec (SCreateLike target_table source_table); EvCommit]))) /\
  (forall r, lookup source_table (tables (w_pending w)) = Some r ->
     lookup target_table (tables (w_pending w)) = None ->
     let (r1, w1) := create_table_copy w in
     let (r2, w2) := create_table_copy w1 in
     r1 = Ok tt /\ r2 = Ok tt /\
     w_committed w2 = w_committed w1 /\ w_pending w2 = w_pending w1 /\
     lookup target_table (tables (w_committed w2)) = Some (mkTable (t_cols r) (filter is_check (t_constrs r)) []) /\
     (forall tn, String.eqb tn target_table = false ->
        lookup tn (tables (w_committed w2)) = lookup tn (tables (w_pending w)))).
Proof.
  intros Ha Hf. split.
  - intros t Ht. apply (create_table_copy_ok w (w_pending w) Ha Hf).
    unfold create_like. rewrite Ht. reflexivity.
  - intros r Hs Ht.
    rewrite (create_table_copy_ok w (set_table target_table (like_copy r) (w_pending w)) Ha Hf)
      by (unfold create_like; rewrite Ht, Hs; reflexivity).
    rewrite (create_table_copy_ok _ (set_table target_table (like_copy r) (w_pending w)))
      by (cbn; auto; unfold create_like; cbn; rewrite lookup_assoc_set_eq; reflexivity).
    cbn. split; [reflexivity|]. split; [reflexivity|]. split; [reflexivity|]. split; [reflexivity|].
    split; [apply lookup_assoc_set_eq|].
    intros tn Hne. apply lookup_assoc_set_neq. exact Hne.
Qed.

Lemma C6_provisioning_idempotent_checks_only_witness :
  create_table_copy w_loaded_header_only =
    (Ok tt, mkWorld (w_env w_loaded_header_only) (w_fs w_loaded_header_only) (w_pending w_loaded_header_only) (w_pending w_loaded_header_only) false
              (w_trace w_loaded_header_only ++ [EvExec (SCreateLike target_table source_table); EvCommit])) /\
  let (r1, w1) := create_table_copy w_fresh in
  let (r2, w2) := create_table_copy w1 in
  r1 = Ok tt /\ r2 = Ok tt /\
  w_committed w2 = w_committed w1 /\ w_pending w2 = w_pending w1 /\
  lookup target_table (tables (w_committed w2)) =
    Some (mkTable (t_cols src_tbl) (filter is_check (t_constrs src_tbl)) []) /\
  (forall tn, String.eqb tn target_table = false ->
     lookup tn (tables (w_committed w2)) = lookup tn (tables (w_pending w_fresh))).
Proof.
  split.
  - apply (proj1 (C6_provisioning_idempotent_checks_only w_loaded_header_only eq_refl eq_refl) tgt_tbl). reflexivity.
  - apply (proj2 (C6_provisioning_idempotent_checks_only w_fresh eq_refl eq_refl) src_tbl); reflexivity.
Defined.

(** C7 (corrected): for a file whose header and records are not blank
    and whose records have the header's length, the buffer built at line
    130 has one row per record, in order, each of the record's length; a
    field pandas reads as missing (an NA marker) becomes [None] and a
    field it keeps as text passes unchanged. The other values are not
    passed through unchanged: [to_numpy] first casts them to the frame's
    common dtype. In a file whose fields are all integer literals or NA
    markers, an integer arrives as numpy.int64 when no field of the file
    is missing, and as a float64 (rounded to 53 bits) as soon as one
    field, in any column, is missing. *)
Theorem C7_normalization_after_upcast (h : list string) (rs : list (list string)) :
  blank_record h = false ->
  Forall (fun r => blank_record r = false /\ length r = length h) rs ->
  exists df, read_csv (h :: rs) = Some df /\
    Forall2 (Forall2 (fun s v => (is_na_field s = true -> v = PNone) /\ (safe_text s = true -> v = PStr s)))
      rs (data_tuples_of df) /\
    (Forall (Forall (fun s => classify s <> KText)) rs ->
     Forall2 (Forall2 (fun s v => forall z, classify s = KInt z ->
                         v = if existsb (existsb is_na_field) rs then PFloat (round53 z) else PNpInt z))
       rs (data_tuples_of df)).
Proof.
  intros Hh Hrs. rewrite (read_csv_rect h rs Hh Hrs). eexists. split; [reflexivity|].
  assert (Hl : Forall (fun r => length r = length h) rs).
  { eapply Forall_impl; [|exact Hrs]. intros r [_ Hr]. exact Hr. }
  assert (Hlen : Forall (fun r => length r = length (map (fun j => infer_dtype (column_fields rs j)) (seq 0 (length h)))) rs).
  { rewrite length_map, length_seq. exact Hl. }
  unfold data_tuples_of, to_numpy. cbn [dtypes values].
  split.
  - apply rows_forall2; [exact Hlen|]. intros d s _. apply field_na_text.
  - intros Hnum. destruct rs as [|r0 rs'] eqn:Ers; [constructor|]. rewrite <- Ers in *.
    apply rows_forall2; [exact Hlen|]. intros d s Hd z Hz.
    apply (numeric_rows h rs _ eq_refl); auto.
    + rewrite Ers. discriminate.
    + intros H0. destruct h; [discriminate Hh | discriminate H0].
Qed.

Lemma C7_normalization_after_upcast_witness :
  blank_record ["a"; "b"]%string = false /\
  Forall (fun r => blank_record r = false /\ length r = length ["a"; "b"]%string)
    [["1"; ""]; ["2"; "3"]]%string /\
  exists df, read_csv (["a"; "b"] :: [["1"; ""]; ["2"; "3"]])%string = Some df /\
    Forall2 (Forall2 (fun s v => (is_na_field s = true -> v = PNone) /\ (safe_text s = true -> v = PStr s)))
      [["1"; ""]; ["2"; "3"]]%string (data_tuples_of df) /\
    (Forall (Forall (fun s => classify s <> KText)) [["1"; ""]; ["2"; "3"]]%string ->
     Forall2 (Forall2 (fun s v => forall z, classify s = KInt z ->
                         v = if existsb (existsb is_na_field) [["1"; ""]; ["2"; "3"]]%string
                             then PFloat (round53 z) else PNpInt z))
       [["1"; ""]; ["2"; "3"]]%string (data_tuples_of df)).
Proof.
  split; [reflexivity|]. split; [repeat constructor|].
  apply C7_normalization_after_upcast; [reflexivity | repeat constructor].
Defined.

(** C9 (confirmed): a run that returns normally adds exactly one ledger
    row, which ends "completed"; its ledger writes are the INSERT of the
    "started" row and one UPDATE to "completed"; the count is the number
    of rows [pd.read_sql] read for the export (the source's row count, or
    none for a source without columns, read as an empty frame), or the
    number of rows the target holds after the import. *)
Theorem C9_ledger_completeness k w w' :
  ledger_wf (w_committed w) = true ->
  run_script k w = (Ok tt, w') ->
  exists n tr,
    ledger (w_committed w') =
      ledger (w_committed w) ++ [mkLog (next_log_id (w_committed w)) (script_table k) "completed" n None true] /\
    w_trace w' = w_trace w ++ tr /\
    filter is_ledger_write tr =
      [EvExec (SInsertLog (script_table k)); EvExec (SUpdateLog (next_log_id (w_committed w)) "completed" n None)] /\
    match k with
    | ExportScript => exists t, lookup source_table (tables (w_committed w)) = Some t /\
        n = match t_cols t with [] => 0%nat | _ => length (t_rows t) end
    | ImportScript => exists rows, rows_of target_table (w_committed w') = Some rows /\ n = length rows
    end.
Proof.
  intros Hwf. destruct k; cbn [run_script script_table]; intros H.
  - apply export_ok_inv in H as (t & Hl & Hc & Htr).
    exists (rows_read t), [EvConnect; EvExec (SInsertLog source_table); EvCommit;
                              EvExec (SSelectAll source_table); EvWriteFile export_file;
                              EvExec (SUpdateLog (next_log_id (w_committed w)) "completed" (rows_read t) None);
                              EvCommit; EvClose].
    rewrite Hc. unfold updated_db, started_db. cbn [ledger next_log_id].
    rewrite update_log_fresh by exact Hwf.
    split; [reflexivity|]. split; [exact Htr|]. split; [reflexivity|]. exists t.
    split; [exact Hl | apply rows_read_eq].
  - apply import_ok_inv in H as (n & tr & rows & Hlg & Hrows & Hlen & Htr & Hf).
    exists n, tr. rewrite Hlg, update_log_fresh by exact Hwf.
    split; [reflexivity|]. split; [exact Htr|]. split; [exact Hf|]. exists rows. auto.
Qed.

Lemma C9_ledger_completeness_witness :
  exists n tr,
    ledger (w_committed (snd (run_script ExportScript w_text))) =
      ledger (w_committed w_text) ++
        [mkLog (next_log_id (w_committed w_text)) (script_table ExportScript) "completed" n None true] /\
    w_trace (snd (run_script ExportScript w_text)) = w_trace w_text ++ tr /\
    filter is_ledger_write tr =
      [EvExec (SInsertLog (script_table ExportScript));
       EvExec (SUpdateLog (next_log_id (w_committed w_text)) "completed" n None)] /\
    exists t, lookup source_table (tables (w_committed w_text)) = Some t /\
      n = match t_cols t with [] => 0%nat | _ => length (t_rows t) end.
Proof.
  apply (C9_ledger_completeness ExportScript w_text (snd (run_script ExportScript w_text))).
  - reflexivity.
  - vm_compute. reflexivity.
Defined.

(** C10 (confirmed): a run that fails while connecting, provisioning or
    inserting the ledger row raises that error, leaves the committed
    ledger as it was, and sends no ledger UPDATE. *)
Theorem C10_no_ledger_record_before_begin k w e :
  fails_before_begin k w e ->
  let (r, w') := run_script k w in
  r = Err e /\ ledger (w_committed w') = ledger (w_committed w) /\
  exists tr, w_trace w' = w_trace w ++ tr /\ forallb (fun ev => negb (is_update ev)) tr = true.
Proof.
  intros [H0 | (w1 & H1 & Hk)].
  - destruct k; cbn [run_script];
      [unfold export_f101_to_csv | unfold import_f101_from_csv]; unfold bind, try_;
      rewrite H0; cbn; (split; [reflexivity|]); (split; [reflexivity|]);
      exists []; rewrite app_nil_r; auto.
  - pose proof (connect_inv w _ _ H1) as Hw1.
    destruct k; cbn [run_script].
    + destruct Hk as (w2 & H2). unfold export_f101_to_csv, bind, try_, finally.
      rewrite H1. cbn -[log_export_start close]. rewrite H2. cbn -[close]. rewrite close_eq. cbn.
      unfold log_export_start in H2. apply log_start_err in H2 as (Hc & tr & Htr & Hu).
      rewrite Hc, Hw1. split; [reflexivity|]. split; [reflexivity|].
      exists ([EvConnect] ++ tr ++ [EvClose]). rewrite Htr, Hw1. cbn.
      split; [rewrite <- !app_assoc; reflexivity|].
      rewrite forallb_app, Hu. reflexivity.
    + unfold import_f101_from_csv, bind, try_, finally. rewrite H1.
      cbn -[create_table_copy log_import_start close].
      destruct Hk as [(w2 & H2) | (w2 & w3 & H2 & H3)].
      * rewrite H2. cbn -[close]. rewrite close_eq. cbn.
        apply create_table_copy_err in H2 as (Hc & tr & Htr & Hu).
        rewrite Hc, Hw1. split; [reflexivity|]. split; [reflexivity|].
        exists ([EvConnect] ++ tr ++ [EvClose]). rewrite Htr, Hw1. cbn.
        split; [rewrite <- !app_assoc; reflexivity|].
        rewrite forallb_app, Hu. reflexivity.
      * rewrite H2. cbn -[log_import_start close]. rewrite H3. cbn -[close]. rewrite close_eq. cbn.
        unfold log_import_start in H3. apply log_start_err in H3 as (Hc3 & tr3 & Htr3 & Hu3).
        apply create_table_copy_inv in H2 as (Ha2 & d & Hcl & ->).
        apply create_like_ledger in Hcl as [Hl _].
        rewrite Hc3. cbn. rewrite Hl, Hw1. split; [reflexivity|]. split; [reflexivity|].
        exists ([EvConnect; EvExec (SCreateLike target_table source_table); EvCommit] ++ tr3 ++ [EvClose]).
        rewrite Htr3, Hw1. cbn. split; [rewrite <- !app_assoc; reflexivity|].
        rewrite forallb_app, Hu3. reflexivity.
Qed.

Lemma C10_no_ledger_record_before_begin_witness :
  let (r, w') := run_script ImportScript w_empty in
  r = Err (EDb "relation dm.dm_f101_round_f does not exist") /\
  ledger (w_committed w') = ledger (w_committed w_empty) /\
  exists tr, w_trace w' = w_trace w_empty ++ tr /\ forallb (fun ev => negb (is_update ev)) tr = true.
Proof.
  apply (C10_no_ledger_record_before_begin ImportScript w_empty (EDb "relation dm.dm_f101_round_f does not exist")).
  right. eexists. split; [reflexivity|]. left. eexists. reflexivity.
Defined.

End General.

(* ================================================================= *)
(** ** Further properties of the two scripts *)
(* ================================================================= *)
Module Extras.
Import Pandas Store Pipeline Props Samples Invariants Facts Loading Roundtrip Frames.

(** Whatever the server does and wherever the run stops, an export
    leaves every table of the committed store as it was: its statements
    are the ledger's INSERT and UPDATEs and the SELECT. *)
Theorem export_leaves_tables w :
  tables (w_committed (snd (export_f101_to_csv w))) = tables (w_committed w).
Proof.
  apply (export_keeps (fun d => tables d = tables (w_committed w)) (fun _ => True));
    try (intros; exact I); try reflexivity;
    repeat intro; match goal with
    | Ha : apply_stmt ?s _ = inr _, Hd : tables _ = _ |- _ => rewrite (ledger_stmt_tables s _ _ _ I Ha); exact Hd
    end.
Qed.

(** Wherever the run stops, an import changes no table other than
    [dm.dm_f101_round_f_v2] in the committed store: provisioning,
    TRUNCATE and the batch INSERTs all name the target table. *)
Theorem import_leaves_other_tables w tn :
  String.eqb tn target_table = false ->
  lookup tn (tables (w_committed (snd (import_f101_from_csv w)))) = lookup tn (tables (w_committed w)).
Proof.
  intros Htn.
  apply (import_keeps (fun d => lookup tn (tables d) = lookup tn (tables (w_committed w))) (fun _ => True));
    try (intros; exact I); try reflexivity;
    try (repeat intro; match goal with
    | Ha : apply_stmt (SInsertLog ?t) _ = inr _, Hd : lookup _ _ = _ |- _ => rewrite (ledger_stmt_tables (SInsertLog t) _ _ _ I Ha); exact Hd
    | Ha : apply_stmt (SUpdateLog ?a ?b ?c ?e) _ = inr _, Hd : lookup _ _ = _ |- _ => rewrite (ledger_stmt_tables (SUpdateLog a b c e) _ _ _ I Ha); exact Hd
    end).
  - intros d r d' Hd H. cbn in H. unfold create_like in H.
    destruct (lookup target_table (tables d)); [inversion H; subst; exact Hd|].
    destruct (lookup source_table (tables d)); inversion H; subst.
    cbn. rewrite lookup_assoc_set_neq by exact Htn. exact Hd.
  - intros d r d' Hd H. cbn in H.
    destruct (lookup target_table (tables d)); inversion H; subst.
    cbn. rewrite lookup_assoc_set_neq by exact Htn. exact Hd.
  - intros cols lits d r d' Hd H. cbn in H.
    destruct (insert_rows target_table cols lits d) eqn:E; inversion H; subst.
    apply insert_rows_inv in E as (tb & _ & ->).
    cbn. rewrite lookup_assoc_set_neq by exact Htn. exact Hd.
Qed.

(** Wherever the run stops, either script leaves the ledger rows of
    earlier runs as they were and only appends rows whose ids come from
    the sequence after the run's start and that name the script's table:
    its UPDATEs only reach the row it inserted. *)
Theorem run_keeps_earlier_log_rows k w :
  ledger_wf (w_committed w) = true ->
  exists s, ledger (w_committed (snd (run_script k w))) = ledger (w_committed w) ++ s /\
    Forall (fun r => (next_log_id (w_committed w) <= log_id r)%nat /\ l_table_name r = script_table k) s.
Proof.
  intros Hwf. apply ledger_wf_forall in Hwf.
  set (L0 := ledger (w_committed w)) in *. set (N0 := next_log_id (w_committed w)) in *.
  assert (H0 : log_extends L0 N0 (script_table k) (w_committed w)).
  { exists []. rewrite app_nil_r. repeat split; [constructor|]. lia. }
  assert (Hk : log_extends L0 N0 (script_table k) (w_committed (snd (run_script k w)))).
  { destruct k; cbn [run_script script_table] in *.
    - eapply proj1, (export_keeps _ (fun _ => True));
        [apply log_extends_insert | apply log_extends_keep; exact I
        | intros id st n msg Hr; apply log_extends_update; [exact Hwf | eapply log_extends_id, Hr]
        | intros; exact I | exact H0 | exact I].
    - eapply proj1, (import_keeps _ (fun _ => True));
        [apply log_extends_keep; exact I | apply log_extends_insert
        | intros id st n msg Hr; apply log_extends_update; [exact Hwf | eapply log_extends_id, Hr]
        | apply log_extends_keep; exact I | intros; apply log_extends_keep; exact I
        | exact H0 | exact I]. }
  destruct Hk as (s & Hl & Hf & _). exists s. auto.
Qed.

(** Once the connection is open, either script ends by closing it
    ([finally: conn.close()]), whatever happened before: the last event
    is the close and no transaction is left open. *)
Theorem run_closes_connection k w :
  env_connect (w_env w) = None ->
  exists tr, w_trace (snd (run_script k w)) = tr ++ [EvClose] /\ txn_closed (snd (run_script k w)).
Proof.
  intros Hc. destruct k; cbn [run_script].
  - unfold export_f101_to_csv. rewrite connected_eq by exact Hc. apply finally_close.
  - unfold import_f101_from_csv. rewrite connected_eq by exact Hc. apply finally_close.
Qed.

(** [log_*_start], [log_*_end] and [create_table_copy] each end their
    transaction, by a commit or, on an error, by a rollback: whatever
    happens, the session afterwards sees the committed state and is not
    in an aborted transaction. *)
Theorem helpers_close_transaction w tn id st n msg :
  txn_closed (snd (log_start tn w)) /\
  txn_closed (snd (log_end id st n msg w)) /\
  txn_closed (snd (create_table_copy w)).
Proof.
  split; [|split].
  - unfold log_start, bind, try_.
    destruct (exec (SInsertLog tn) w) as [[r|e] w1]; cbn -[commit rollback];
      [|apply rollback_closed].
    destruct r; cbn -[commit rollback]; try apply rollback_closed.
    destruct (commit w1) as [[u|e] w2] eqn:Hc; cbn -[rollback].
    + pose proof (commit_closed w1) as H. rewrite Hc in H. exact H.
    + apply rollback_closed.
  - unfold log_end, bind, try_.
    destruct (exec (SUpdateLog id st n msg) w) as [[r|e] w1]; cbn -[commit rollback];
      [|apply rollback_closed].
    destruct (commit w1) as [[u|e] w2] eqn:Hc; cbn -[rollback].
    + pose proof (commit_closed w1) as H. rewrite Hc in H. exact H.
    + apply rollback_closed.
  - unfold create_table_copy, bind, try_.
    destruct (exec (SCreateLike target_table source_table) w) as [[r|e] w1]; cbn -[commit rollback];
      [|apply rollback_closed].
    destruct (commit w1) as [[u|e] w2] eqn:Hc; cbn -[rollback].
    + pose proof (commit_closed w1) as H. rewrite Hc in H. exact H.
    + apply rollback_closed.
Qed.

(** [log_*_start] returns the id of the "started" row it committed,
    which no earlier row carries. *)
Theorem log_start_returns_new_row tn w id w' :
  log_start tn w = (Ok id, w') -> ledger_wf (w_pending w) = true ->
  ledger (w_committed w') = ledger (w_pending w) ++ [mkLog id tn "started" 0 None false] /\
  Forall (fun r => log_id r <> id) (ledger (w_pending w)).
Proof.
  intros H Hwf. apply log_start_inv in H as (_ & -> & ->). cbn. split; [reflexivity|].
  pose proof (ledger_wf_forall _ Hwf) as Hf. eapply Forall_impl; [|exact Hf]. cbn beta. intros r Hr. lia.
Qed.

(** [log_*_end] does not check that its UPDATE matched a row: with an id
    no ledger row carries it succeeds and commits the session's state
    unchanged. *)
Theorem log_end_unknown_id_noop w id st n msg :
  w_aborted w = false -> env_fault (w_env w) (SUpdateLog id st n msg) = None ->
  Forall (fun r => log_id r <> id) (ledger (w_pending w)) ->
  fst (log_end id st n msg w) = Ok tt /\ w_committed (snd (log_end id st n msg w)) = w_pending w.
Proof.
  intros Ha Hf Hn. rewrite log_end_ok by assumption. split; [reflexivity|]. cbn.
  unfold updated_db. destruct (w_pending w) as [tb lg nx]. cbn in Hn |- *. f_equal.
  rewrite <- (map_id lg) at 2. apply map_ext_in. intros r Hr.
  rewrite Forall_forall in Hn. specialize (Hn r Hr).
  unfold update_log. destruct (Nat.eqb (log_id r) id) eqn:E; [apply Nat.eqb_eq in E; contradiction | reflexivity].
Qed.

(** A successful [execute_batch] with page size [n] sends
    ceil(len(rows) / n) INSERT round trips, each of between 1 and [n]
    rows, whose rows are the adapted rows in order. *)
Theorem execute_batch_round_trips tn cols rows n w w' :
  (1 <= n)%nat -> execute_batch tn cols rows n w = (Ok tt, w') ->
  exists ls, w_trace w' = w_trace w ++ map (fun l => EvExec (SInsertRows tn cols l)) ls /\
    length ls = ((length rows + n - 1) / n)%nat /\
    Forall (fun l => (1 <= length l <= n)%nat) ls /\
    mogrify_rows rows = Some (concat ls).
Proof.
  intros Hn H. unfold execute_batch in H.
  destruct (run_pages_ok_trace _ _ _ _ _ _ H) as (ls & Hf & Ht).
  exists ls. split; [exact Ht|].
  pose proof (paginate_fuel_bounds (length rows) n rows Hn) as Hb.
  pose proof (concat_paginate n rows Hn) as Hc.
  pose proof (paginate_fuel_length (length rows) n rows Hn (le_n _)) as Hl.
  unfold paginate in *. set (ps := paginate_fuel (length rows) n rows) in *.
  split; [rewrite <- Hl; symmetry; apply (Forall2_length Hf)|].
  rewrite <- Hc. clear Hl Hc Ht H.
  induction Hf as [|p l ps' ls' Hp Hf IH]; cbn.
  - split; constructor.
  - inversion Hb as [|? ? Hb1 Hb2]; subst.
    destruct (IH Hb2) as [IH1 IH2]. split.
    + constructor; [|exact IH1]. rewrite (mogrify_rows_length _ _ Hp). exact Hb1.
    + apply mogrify_rows_app; assumption.
Qed.

(** After a successful export the file [data/f101_round_data.csv]
    holds the source table's column names and then, when the table has
    a column, one record per row, in the table's order, NULL written as
    an empty field; a table without columns gives one empty line. *)
Theorem export_file_content w w' :
  export_f101_to_csv w = (Ok tt, w') ->
  exists t, lookup source_table (tables (w_committed w)) = Some t /\
    lookup export_file (w_fs w') =
      Some (map c_name (t_cols t) ::
            match t_cols t with [] => [] | _ => map (map field_of_cell) (t_rows t) end).
Proof.
  intros H. unfold export_f101_to_csv, bind, try_, finally in H.
  destruct (create_connection w) as [[u|e] w1] eqn:H1; cbn -[log_export_start export_body on_failure close] in H;
    [|discriminate H].
  apply connect_inv in H1. subst w1.
  destruct (log_export_start _) as [[id|e] w2] eqn:H2; cbn -[export_body on_failure close] in H.
  2:{ destruct (on_failure_err None e w2) as (e' & w3 & Hf). rewrite Hf in H. destruct (close w3). discriminate H. }
  destruct (export_body id w2) as [[u3|e] w3] eqn:H3; cbn -[on_failure close] in H.
  2:{ destruct (on_failure_err (Some id) e w3) as (e' & w4 & Hf). rewrite Hf in H. destruct (close w4). discriminate H. }
  rewrite close_eq in H. inversion H; subst w'. clear H.
  unfold log_export_start in H2. apply log_start_inv in H2 as (_ & -> & ->).
  unfold export_body, bind in H3. cbn [w_pending w_committed] in H3.
  destruct (read_sql source_table _) as [[df|e] w4] eqn:H4; [|discriminate H3].
  apply read_sql_inv in H4 as (_ & t & Hl & -> & ->).
  destruct (file_to_csv export_file _ _) as [[u1|e] w5] eqn:H5; [|discriminate H3].
  apply file_to_csv_inv in H5. subst w5.
  unfold log_export_end in H3. apply log_end_inv in H3 as (_ & ->).
  exists t. cbn in Hl |- *. split; [exact Hl|].
  rewrite lookup_assoc_set_eq. unfold to_csv, frame_of_rows.
  destruct (t_cols t) as [|c cs]; cbn [map columns values]; [reflexivity|].
  rewrite map_map. f_equal. f_equal. apply map_ext. intros r. rewrite map_map. reflexivity.
Qed.

(** When pandas cannot read the import file (a file without any line
    but blank ones, or with a record longer than its first data record),
    the import fails before its TRUNCATE: the target table keeps its rows,
    the ledger row is marked failed and the connection is closed. *)
Theorem import_unreadable_file_keeps_target w d f :
  no_faults (w_env w) -> ledger_wf (w_committed w) = true ->
  create_like target_table source_table (w_committed w) = inr d ->
  lookup import_file (w_fs w) = Some f -> read_csv f = None ->
  let (r, w') := import_f101_from_csv w in
  r = Err EParse /\
  w_trace w' = w_trace w ++
    [EvConnect; EvExec (SCreateLike target_table source_table); EvCommit;
     EvExec (SInsertLog target_table); EvCommit;
     EvFileCheck import_file true;
     EvExec (SUpdateLog (next_log_id (w_committed w)) "failed" 0 (Some (err_str EParse)));
     EvCommit; EvClose] /\
  tables (w_committed w') = tables d /\
  ledger (w_committed w') = ledger (w_committed w) ++
    [mkLog (next_log_id (w_committed w)) target_table "failed" 0 (Some (err_str EParse)) true].
Proof.
  intros (Hc & Hf & Hw) Hwf Hcl Hfile Hread.
  pose proof (create_like_ledger _ _ _ _ Hcl) as [Hld Hnx].
  unfold import_f101_from_csv, bind, try_, finally.
  rewrite (connect_ok w Hc). cbn -[create_table_copy log_start import_body on_failure close].
  rewrite (create_table_copy_ok _ d) by (cbn; auto). cbn -[log_start import_body on_failure close].
  unfold log_import_start. rewrite log_start_ok by (cbn; auto). cbn -[import_body on_failure close].
  unfold import_body, bind. rewrite path_exists_eq. cbn [w_fs]. rewrite Hfile.
  cbn -[file_read_csv on_failure close].
  unfold file_read_csv at 1. cbn [w_fs]. rewrite Hfile, Hread.
  cbn -[on_failure close]. unfold on_failure, bind.
  rewrite log_end_ok by (cbn; auto). cbn -[close]. rewrite close_eq. cbn.
  rewrite Hnx. split; [reflexivity|]. split; [rewrite <- !app_assoc; reflexivity|].
  split; [reflexivity|].
  rewrite Hld. apply update_log_fresh. exact Hwf.
Qed.

(** An import file whose only line that is not blank is its header
    (pandas skips blank lines, and a file of blank lines only has no
    columns to parse) empties the target table, sends no INSERT and is
    recorded as completed with 0 records. *)
Theorem import_header_only_empties_target w d t f h :
  no_faults (w_env w) -> ledger_wf (w_committed w) = true ->
  create_like target_table source_table (w_committed w) = inr d ->
  lookup target_table (tables d) = Some t ->
  lookup import_file (w_fs w) = Some f -> filter (fun r => negb (blank_record r)) f = [h] ->
  let (r, w') := import_f101_from_csv w in
  r = Ok tt /\
  rows_of target_table (w_committed w') = Some [] /\
  ledger (w_committed w') = ledger (w_committed w) ++
    [mkLog (next_log_id (w_committed w)) target_table "completed" 0 None true].
Proof.
  intros (Hc & Hf & Hw) Hwf Hcl Hl Hfile Hh.
  pose proof (create_like_ledger _ _ _ _ Hcl) as [Hld Hnx].
  unfold import_f101_from_csv, bind, try_, finally.
  rewrite (connect_ok w Hc). cbn -[create_table_copy log_start import_body close].
  rewrite (create_table_copy_ok _ d) by (cbn; auto). cbn -[log_start import_body close].
  unfold log_import_start. rewrite log_start_ok by (cbn; auto). cbn -[import_body close].
  unfold import_body, bind. rewrite path_exists_eq. cbn [w_fs]. rewrite Hfile.
  cbn -[file_read_csv exec commit execute_batch log_end close].
  unfold file_read_csv at 1. cbn [w_fs]. rewrite Hfile.
  unfold read_csv at 1. rewrite Hh.
  cbn -[exec commit execute_batch log_end close].
  rewrite (exec_ok _ _ RNone (set_table target_table (mkTable (t_cols t) (t_constrs t) [])
                                        (started_db d target_table)))
    by (cbn; auto; unfold started_db; cbn; rewrite Hl; reflexivity).
  cbn -[commit log_end close].
  rewrite commit_ok by reflexivity. cbn -[log_end close].
  unfold log_import_end. rewrite log_end_ok by (cbn; auto). cbn -[close].
  rewrite close_eq. cbn. split; [reflexivity|]. split.
  - unfold rows_of. cbn. rewrite lookup_assoc_set_eq. reflexivity.
  - rewrite Hnx, Hld. apply update_log_fresh. exact Hwf.
Qed.

(** *** Witnesses *)

Lemma import_leaves_other_tables_witness :
  String.eqb source_table target_table = false /\
  lookup source_table (tables (w_committed (snd (import_f101_from_csv w_fresh)))) =
    lookup source_table (tables (w_committed w_fresh)).
Proof. split; [reflexivity | apply (import_leaves_other_tables w_fresh source_table); reflexivity]. Defined.

Lemma run_keeps_earlier_log_rows_witness :
  ledger_wf (w_committed w_logged) = true /\
  exists s, ledger (w_committed (snd (run_script ExportScript w_logged))) = ledger (w_committed w_logged) ++ s /\
    Forall (fun r => (next_log_id (w_committed w_logged) <= log_id r)%nat /\
                     l_table_name r = script_table ExportScript) s.
Proof. split; [reflexivity | apply (run_keeps_earlier_log_rows ExportScript w_logged); reflexivity]. Defined.

Lemma run_closes_connection_witness :
  env_connect (w_env w_fresh) = None /\
  exists tr, w_trace (snd (run_script ImportScript w_fresh)) = tr ++ [EvClose] /\
             txn_closed (snd (run_script ImportScript w_fresh)).
Proof. split; [reflexivity | apply (run_closes_connection ImportScript w_fresh); reflexivity]. Defined.

Lemma log_start_returns_new_row_witness :
  log_start source_table w_logged = (Ok 1%nat, snd (log_start source_table w_logged)) /\
  ledger_wf (w_pending w_logged) = true /\
  ledger (w_committed (snd (log_start source_table w_logged))) =
    ledger (w_pending w_logged) ++ [mkLog 1 source_table "started" 0 None false] /\
  Forall (fun r => log_id r <> 1%nat) (ledger (w_pending w_logged)).
Proof.
  split; [reflexivity|]. split; [reflexivity|].
  apply (log_start_returns_new_row source_table w_logged 1 (snd (log_start source_table w_logged)));
    reflexivity.
Defined.

Lemma log_end_unknown_id_noop_witness :
  Forall (fun r => log_id r <> 5%nat) (ledger (w_pending w_logged)) /\
  fst (log_end 5 "completed" 0 None w_logged) = Ok tt /\
  w_committed (snd (log_end 5 "completed" 0 None w_logged)) = w_pending w_logged.
Proof.
  assert (Hn : Forall (fun r => log_id r <> 5%nat) (ledger (w_pending w_logged)))
    by (simpl; constructor; [simpl; lia | constructor]).
  split; [exact Hn|].
  apply (log_end_unknown_id_noop w_logged 5 "completed" 0 None); [reflexivity | reflexivity | exact Hn].
Defined.

Lemma execute_batch_round_trips_witness :
  let rows := [[PStr "A1"; PStr "x"]; [PStr "B2"; PNone]; [PStr "C3"; PStr "y"]] in
  let run := execute_batch target_table ["a"; "b"]%string rows 2 w_loaded_header_only in
  fst run = Ok tt /\
  exists ls, w_trace (snd run) = w_trace w_loaded_header_only ++
               map (fun l => EvExec (SInsertRows target_table ["a"; "b"]%string l)) ls /\
    length ls = ((length rows + 2 - 1) / 2)%nat /\
    Forall (fun l => (1 <= length l <= 2)%nat) ls /\
    mogrify_rows rows = Some (concat ls).
Proof.
  cbv zeta. split; [reflexivity|].
  apply (execute_batch_round_trips _ _ _ 2 w_loaded_header_only
           (snd (execute_batch target_table ["a"; "b"]%string
                   [[PStr "A1"; PStr "x"]; [PStr "B2"; PNone]; [PStr "C3"; PStr "y"]] 2 w_loaded_header_only)));
    [lia | reflexivity].
Defined.

Lemma export_file_content_witness :
  export_f101_to_csv w_fresh = (Ok tt, snd (export_f101_to_csv w_fresh)) /\
  exists t, lookup source_table (tables (w_committed w_fresh)) = Some t /\
    lookup export_file (w_fs (snd (export_f101_to_csv w_fresh))) =
      Some (map c_name (t_cols t) ::
            match t_cols t with [] => [] | _ => map (map field_of_cell) (t_rows t) end).
Proof.
  split; [reflexivity|]. apply (export_file_content w_fresh (snd (export_f101_to_csv w_fresh))). reflexivity.
Defined.

Lemma import_unreadable_file_keeps_target_witness :
  rows_of target_table db_loaded = Some [[Some "A1"; Some "x"]%string] /\
  let (r, w') := import_f101_from_csv w_loaded_empty_file in
  r = Err EParse /\
  w_trace w' = w_trace w_loaded_empty_file ++
    [EvConnect; EvExec (SCreateLike target_table source_table); EvCommit;
     EvExec (SInsertLog target_table); EvCommit;
     EvFileCheck import_file true;
     EvExec (SUpdateLog (next_log_id (w_committed w_loaded_empty_file)) "failed" 0 (Some (err_str EParse)));
     EvCommit; EvClose] /\
  tables (w_committed w') = tables db_loaded /\
  ledger (w_committed w') = ledger (w_committed w_loaded_empty_file) ++
    [mkLog (next_log_id (w_committed w_loaded_empty_file)) target_table "failed" 0 (Some (err_str EParse)) true].
Proof.
  split; [reflexivity|].
  apply (import_unreadable_file_keeps_target w_loaded_empty_file db_loaded []).
  - split; [reflexivity | split; [intros s; reflexivity | reflexivity]].
  - reflexivity.
  - reflexivity.
  - reflexivity.
  - reflexivity.
Defined.

Lemma import_header_only_empties_target_witness :
  rows_of target_table db_loaded = Some [[Some "A1"; Some "x"]%string] /\
  let (r, w') := import_f101_from_csv w_loaded_header_only in
  r = Ok tt /\
  rows_of target_table (w_committed w') = Some [] /\
  ledger (w_committed w') = ledger (w_committed w_loaded_header_only) ++
    [mkLog (next_log_id (w_committed w_loaded_header_only)) target_table "completed" 0 None true].
Proof.
  split; [reflexivity|].
  apply (import_header_only_empties_target w_loaded_header_only db_loaded tgt_tbl
           [["a"; "b"]%string] ["a"; "b"]%string).
  - split; [reflexivity | split; [intros s; reflexivity | reflexivity]].
  - reflexivity.
  - reflexivity.
  - reflexivity.
  - reflexivity.
  - reflexivity.
Defined.

End Extras.
